(** * SingleLayerNN: the numerical core of [nn_utils.py]

    A shallow embedding of the single-hidden-layer network of
    [src/nn_utils.py]: activation functions, softmax, forward and backward
    pass, the stochastic-gradient training loop and the evaluation loop.

    Modelling choices.
    - Floating-point numbers are the elements of a type [F] with the
      operations of binary64 arithmetic ([Float]) and with the functions
      that numpy takes from libm and from its summation and BLAS kernels
      ([Kernels]).  The program is embedded once, for every such structure:
      nothing is assumed about rounding, overflow, [inf] or [nan], so
      what is proved holds of the binary64 arithmetic the program runs on.
      Two structures are built: binary64 itself, on the primitive floats
      ([binary64], with libm and the kernels as parameters, [kernels64]), and exact
      arithmetic on [R] ([real_float], [real_kernels]), which provides
      concrete inputs.
    - numpy arrays and Python dicts are objects in a store ([heap]); a
      variable holds a reference ([loc]).  Every numpy operation that returns
      a new array allocates a cell; [dU[y] = ...] and [d[k] = ...] write in
      place.
    - Exceptions and [sys.exit] are results [Raise e]; every function of the
      program is a computation in the state-and-exception monad [M].
    - [random.randint] and [np.random.randn] read from streams carried by the
      state, so every possible sequence of draws is covered.
    - [print] and the figures of [plot_predict] are events appended to [out].
      A reported accuracy is the quotient of two Python ints; the event
      records the exact ratio, of which the printed number is the rounding.
*)

From Stdlib Require Import Reals Lra Lia ZArith QArith Qreals.
From Stdlib Require PrimFloat Uint63.
From stdpp Require Import gmap strings list.

Open Scope R_scope.

(** ** Floating-point arithmetic *)

(** The operations of binary64 that Python and numpy apply entry by entry. *)
Class Float (F : Type) := {
  lit : Q → F;           (* float(q): a literal, or an int converted *)
  fadd : F → F → F;      (* a + b *)
  fsub : F → F → F;      (* a - b *)
  fmul : F → F → F;      (* a * b *)
  fdiv : F → F → F;      (* a / b, on numpy floats: no exception *)
  fsqrt : F → F;         (* np.sqrt *)
  fle : F → F → bool;    (* a <= b *)
  isnan : F → bool       (* np.isnan *)
}.
Arguments lit {F _} q%_Q.

(** What numpy computes by calling libm ([np.exp], [np.tanh]) and by its
    reduction kernels: [np.sum] on a vector (pairwise summation) and
    [np.dot] of a matrix and a vector (BLAS gemv).  The order in which a
    kernel adds is its own, and differs with the layout of the matrix:
    [gemv rows v] is [np.dot(a, v)] for a matrix [a] stored by rows, and
    [gemv_t c rows v] is [np.dot(a.T, v)] for the transposed view of a
    matrix [a] with [c] columns.  Only the shape of the result is known. *)
Class Kernels (F : Type) `{Float F} := {
  fexp : F → F;
  ftanh : F → F;
  fsum : list F → F;
  gemv : list (list F) → list F → list F;
  gemv_t : nat → list (list F) → list F → list F;
  gemv_length rows v : length (gemv rows v) = length rows;
  gemv_t_length c rows v : length (gemv_t c rows v) = c
}.

(** Comparison of floats: [<=] is a total preorder on the numbers, and is
    false whenever an operand is [nan]. *)
Class FloatOrder (F : Type) `{Float F} : Prop := {
  fle_refl a : isnan a = false → fle a a = true;
  fle_trans a b c : fle a b = true → fle b c = true → fle a c = true;
  fle_total a b :
    isnan a = false → isnan b = false → fle a b = true ∨ fle b a = true;
  fle_number a b : fle a b = true → isnan a = false ∧ isnan b = false
}.

(** ** Objects, exceptions, state *)

Abbreviation loc := nat.

Inductive obj (F : Type) :=
| Arr1 (v : list F)                        (* ndarray of shape (n,) *)
| Arr2 (cols : nat) (rows : list (list F)) (* ndarray of shape (len rows, cols) *)
| ArrT (cols : nat) (rows : list (list F)) (* a.T for a of shape (len rows, cols) *)
| Dict (d : gmap string loc).              (* dict from str to object *)
Arguments Arr1 {F} v.
Arguments Arr2 {F} cols rows.
Arguments ArrT {F} cols rows.
Arguments Dict {F} d.

Inductive exn :=
| KeyError (k : string)
| IndexError
| ValueError
| ZeroDivisionError
| SystemExit (msg : string)
| Unmodelled.   (* the call leaves the fragment of numpy embedded here *)

Inductive event (F : Type) :=
| EpochReport (epochs : Z) (accuracy : R) (* print("Epoch %3d,  Accuracy %6.4f") *)
| TestReport (accuracy : R)               (* print("Test Accuracy : %6.4f") *)
| Plot (x : list F) (y pred : Z).         (* one figure of plot_predict *)
Arguments EpochReport {F} epochs accuracy.
Arguments TestReport {F} accuracy.
Arguments Plot {F} x y pred.

Record world (F : Type) := World {
  heap : list (obj F);
  rand : nat → Z;     (* raw outcome of the i-th call of random.randint *)
  draws : nat;        (* calls of random.randint made so far *)
  gauss : nat → F;    (* i-th sample of np.random.randn *)
  gdraws : nat;       (* samples of np.random.randn taken so far *)
  out : list (event F)
}.
Arguments World {F} heap rand draws gauss gdraws out.
Arguments heap {F} w.
Arguments rand {F} w.
Arguments draws {F} w.
Arguments gauss {F} w.
Arguments gdraws {F} w.
Arguments out {F} w.

Definition set_heap {F} (w : world F) (h : list (obj F)) : world F :=
  World h (rand w) (draws w) (gauss w) (gdraws w) (out w).

Inductive result (A : Type) :=
| Ok (a : A)
| Raise (e : exn).
Arguments Ok {A} a.
Arguments Raise {A} e.

Definition M (F A : Type) : Type := world F → result (A * world F).

Definition ret {F A} (a : A) : M F A := λ w, Ok (a, w).

Definition raise {F A} (e : exn) : M F A := λ _, Raise e.

Definition bind {F A B} (m : M F A) (k : A → M F B) : M F B :=
  λ w, match m w with
       | Ok (a, w') => k a w'
       | Raise e => Raise e
       end.

Notation "'let*' x ':=' m 'in' k" := (bind m (λ x, k))
  (at level 10, x pattern, m at level 100, k at level 200,
   format "'[v' 'let*'  x  :=  m  'in'  '/' k ']'").

Definition lift {F A} (r : result A) : M F A :=
  λ w, match r with Ok a => Ok (a, w) | Raise e => Raise e end.

(** ** The store *)

Definition alloc {F} (o : obj F) : M F loc :=
  λ w, Ok (length (heap w), set_heap w (heap w ++ [o])).

Definition deref {F} (l : loc) : M F (obj F) :=
  λ w, match heap w !! l with
       | Some o => Ok (o, w)
       | None => Raise Unmodelled
       end.

Definition store {F} (l : loc) (o : obj F) : M F unit :=
  λ w, Ok (tt, set_heap w (<[l := o]> (heap w))).

(** [d[k]] and [d[k] = v] on a dict. *)
Definition getitem {F} (d : loc) (k : string) : M F loc :=
  let* o := deref d in
  match o with
  | Dict g => match g !! k with
              | Some l => ret l
              | None => raise (KeyError k)
              end
  | _ => raise Unmodelled
  end.

Definition setitem {F} (d : loc) (k : string) (v : loc) : M F unit :=
  let* o := deref d in
  match o with
  | Dict g => store d (Dict (<[k := v]> g))
  | _ => raise Unmodelled
  end.

(** Python's index rule for a sequence of length [n]: [-n <= i < n]. *)
Definition py_index (n : nat) (i : Z) : option nat :=
  if decide (0 ≤ i < Z.of_nat n)%Z then Some (Z.to_nat i)
  else if decide (- Z.of_nat n ≤ i < 0)%Z then Some (Z.to_nat (i + Z.of_nat n))
  else None.

Definition seq_getitem {A} (l : list A) (i : Z) : result A :=
  match py_index (length l) i with
  | Some k => match l !! k with Some a => Ok a | None => Raise IndexError end
  | None => Raise IndexError
  end.

(** [a[i]] and [a[i] = r] on a one-dimensional array. *)
Definition arr_getitem {F} (a : loc) (i : Z) : M F F :=
  let* o := deref a in
  match o with
  | Arr1 v => lift (seq_getitem v i)
  | _ => raise Unmodelled
  end.

Definition arr_setitem {F} (a : loc) (i : Z) (r : F) : M F unit :=
  let* o := deref a in
  match o with
  | Arr1 v => match py_index (length v) i with
              | Some k => store a (Arr1 (<[k := r]> v))
              | None => raise IndexError
              end
  | _ => raise Unmodelled
  end.

(** ** numpy kernels on array contents *)

(** [np.outer(u, v)]: the products [u_i * v_j] *)
Definition outer `{Float F} (u v : list F) : list (list F) :=
  map (λ a, map (fmul a) v) u.

(** the contents of [a.T] for [a] of shape (len rows, cols) *)
Definition transpose `{Float F} (cols : nat) (rows : list (list F))
    : list (list F) :=
  map (λ j, map (λ r, nth j r (lit 0)) rows) (seq 0 cols).

Definition length_transpose `{Float F} c (rows : list (list F))
    : length (transpose c rows) = c :=
  eq_trans (length_map (λ j, map (λ r, nth j r (lit 0)) rows) (seq 0 c))
           (length_seq c 0).

(** Elementwise binary operation on shapes (n,) and (m,), with numpy's
    broadcasting of a length-one operand. *)
Definition zip1 {F} (f : F → F → F) (u v : list F) : result (list F) :=
  if decide (length u = length v) then Ok (zip_with f u v)
  else match u, v with
       | [a], _ => Ok (map (f a) v)
       | _, [b] => Ok (map (λ a, f a b) u)
       | _, _ => Raise ValueError
       end.

(** [np.argmax] on floats: the scan keeps the first entry that is not
    [<=] the best one so far, and stops at the first [nan], which counts as
    maximal. *)
Fixpoint argmax_from `{Float F} (best : F) (bi i : nat) (v : list F) : nat :=
  match v with
  | [] => bi
  | a :: t => if fle a best then argmax_from best bi (S i) t
              else if isnan a then i
              else argmax_from a i (S i) t
  end.

Definition argmax `{Float F} (v : list F) : result Z :=
  match v with
  | [] => Raise ValueError
  | a :: t => Ok (Z.of_nat (if isnan a then 0%nat else argmax_from a 0 1 t))
  end.

(** ** numpy operations on references *)

(** [np.exp(a)], [np.tanh(a)], [a**2], [1 + a], [s*a], [a/s], ... *)
Definition np_map {F} (f : F → F) (a : loc) : M F loc :=
  let* o := deref a in
  match o with
  | Arr1 v => alloc (Arr1 (map f v))
  | Arr2 c rows => alloc (Arr2 c (map (map f) rows))
  | ArrT c rows => alloc (ArrT c (map (map f) rows))
  | Dict _ => raise Unmodelled
  end.

(** [a + b], [a / b], [np.multiply(a, b)] *)
Definition np_zip {F} (f : F → F → F) (a b : loc) : M F loc :=
  let* oa := deref a in
  let* ob := deref b in
  match oa, ob with
  | Arr1 u, Arr1 v => let* r := lift (zip1 f u v) in alloc (Arr1 r)
  | Arr2 c1 r1, Arr2 c2 r2 =>
      if decide (c1 = c2 ∧ length r1 = length r2)
      then alloc (Arr2 c1 (zip_with (zip_with f) r1 r2))
      else raise Unmodelled
  | _, _ => raise Unmodelled
  end.

(** [np.sum(a)] of a vector *)
Definition np_sum `{Kernels F} (a : loc) : M F F :=
  let* o := deref a in
  match o with
  | Arr1 v => ret (fsum v)
  | _ => raise Unmodelled
  end.

(** [np.dot(a, b)] for a matrix, or the transposed view of one, and a
    vector *)
Definition np_dot `{Kernels F} (a b : loc) : M F loc :=
  let* oa := deref a in
  let* ob := deref b in
  match oa, ob with
  | Arr2 c rows, Arr1 v =>
      if decide (c = length v) then alloc (Arr1 (gemv rows v))
      else raise ValueError
  | ArrT c rows, Arr1 v =>
      if decide (length rows = length v) then alloc (Arr1 (gemv_t c rows v))
      else raise ValueError
  | _, _ => raise Unmodelled
  end.

(** [np.transpose(a)]: a one-dimensional array is returned as it is (a view
    of the same data); the transposed view of a matrix is never written in
    this program and gets a cell of its own. *)
Definition np_transpose {F} (a : loc) : M F loc :=
  let* o := deref a in
  match o with
  | Arr1 _ => ret a
  | Arr2 c rows => alloc (ArrT c rows)
  | ArrT c rows => alloc (Arr2 c rows)
  | Dict _ => raise Unmodelled
  end.

(** [np.outer(a, b)] for two vectors *)
Definition np_outer `{Float F} (a b : loc) : M F loc :=
  let* oa := deref a in
  let* ob := deref b in
  match oa, ob with
  | Arr1 u, Arr1 v => alloc (Arr2 (length v) (outer u v))
  | _, _ => raise Unmodelled
  end.

(** [np.argmax(a)] *)
Definition np_argmax `{Float F} (a : loc) : M F Z :=
  let* o := deref a in
  match o with
  | Arr1 v => lift (argmax v)
  | _ => raise Unmodelled
  end.

(** ** Python built-ins *)

Definition sys_exit {F A} (msg : string) : M F A := raise (SystemExit msg).

(** [random.randint(a, b)]: an integer of [a..b]; ValueError on an empty
    range. *)
Definition randint {F} (a b : Z) : M F Z :=
  λ w, if decide (b < a)%Z then Raise ValueError
       else Ok ((a + rand w (draws w) `mod` (b - a + 1))%Z,
                World (heap w) (rand w) (S (draws w)) (gauss w) (gdraws w) (out w)).

Definition emit {F} (e : event F) : M F unit :=
  λ w, Ok (tt, World (heap w) (rand w) (draws w) (gauss w) (gdraws w) (out w ++ [e])).

(** [range(n)] *)
Definition py_range (n : Z) : list Z := map Z.of_nat (seq 0 (Z.to_nat n)).

(** a [for] loop whose body updates the local variables [s] *)
Fixpoint for_loop {F A S} (l : list A) (body : A → S → M F S) (s : S) : M F S :=
  match l with
  | [] => ret s
  | a :: t => let* s' := body a s in for_loop t body s'
  end.

(** [k / np.float(n)] for Python ints [k] and [n]; [np.float] is Python's
    [float] in the numpy the program was written for, so a zero divisor
    raises.  The result is the ratio of the two ints. *)
Definition py_div_float {F} (k n : Z) : M F R :=
  if decide (n = 0%Z) then raise ZeroDivisionError else ret (IZR k / IZR n).

(** [np.random.randn(n)] and [np.random.randn(r, c)] *)
Definition take_gauss {F A} (n : nat) (mk : (nat → F) → A) : M F A :=
  λ w, Ok (mk (λ i, gauss w (gdraws w + i)%nat),
           World (heap w) (rand w) (draws w) (gauss w) (gdraws w + n) (out w)).

Definition np_randn1 {F} (n : Z) : M F loc :=
  if decide (n < 0)%Z then raise ValueError
  else let* v := take_gauss (Z.to_nat n) (λ g, map g (seq 0 (Z.to_nat n))) in
       alloc (Arr1 v).

Definition np_randn2 {F} (r c : Z) : M F loc :=
  if decide (r < 0 ∨ c < 0)%Z then raise ValueError
  else let* rows := take_gauss (Z.to_nat r * Z.to_nat c)
                      (λ g, map (λ i, map (λ j, g (i * Z.to_nat c + j)%nat)
                                       (seq 0 (Z.to_nat c)))
                                (seq 0 (Z.to_nat r))) in
       alloc (Arr2 (Z.to_nat c) rows).

(** [copy.deepcopy(d)] for an array or a dict of arrays held under distinct
    keys; a dict inside a dict is outside the embedding. *)
Definition copy_array {F} (l : loc) : M F loc :=
  let* o := deref l in
  match o with
  | Dict _ => raise Unmodelled
  | _ => alloc o
  end.

Fixpoint copy_items {F} (kv : list (string * loc)) : M F (list (string * loc)) :=
  match kv with
  | [] => ret []
  | (k, l) :: t =>
      let* l' := copy_array l in
      let* t' := copy_items t in
      ret ((k, l') :: t')
  end.

Definition deepcopy {F} (d : loc) : M F loc :=
  let* o := deref d in
  match o with
  | Dict g => let* kv := copy_items (map_to_list g) in
              alloc (Dict (list_to_map kv))
  | _ => alloc o
  end.

(** ** The program *)

(** The namespace returned by [parse_params]; [--lr] and [--decay] are
    parsed by [float]. *)
Module params.
Record t (F : Type) := {
  lr : F;
  decay : F;
  interval : Z;
  n_epochs : Z;
  n_h : Z;
  sigma : string
}.
Arguments lr {F} t.
Arguments decay {F} t.
Arguments interval {F} t.
Arguments n_epochs {F} t.
Arguments n_h {F} t.
Arguments sigma {F} t.
(** the defaults of the command line *)
Definition default `{Float F} : t F :=
  {| lr := lit 0.1; decay := lit 0.1; interval := 5; n_epochs := 20; n_h := 64;
     sigma := "sigmoid" |}.
End params.

(** The dict returned by [load_mnist]; it is only read.  The features are
    float32 numbers, which numpy converts, exactly, when they meet the
    float64 parameters. *)
Module mnist.
Record t (F : Type) := {
  x_train : list (list F);
  y_train : list Z;
  x_test : list (list F);
  y_test : list Z;
  n_train : Z;
  n_test : Z;
  n_input : Z;
  n_output : Z
}.
Arguments x_train {F} t.
Arguments y_train {F} t.
Arguments x_test {F} t.
Arguments y_test {F} t.
Arguments n_train {F} t.
Arguments n_test {F} t.
Arguments n_input {F} t.
Arguments n_output {F} t.
End mnist.

(** [np.sqrt(n)] of an int [n] is the square root of [float(n)]. *)
Definition init_model `{Float F} (d : mnist.t F) (p : params.t F)
    : M F (loc * loc) :=
  let* model := alloc (Dict ∅) in
  let* r := np_randn2 (params.n_h p) (mnist.n_input d) in
  let* W := np_map (λ a, fdiv a (fsqrt (lit (inject_Z (mnist.n_input d))))) r in
  let* _ := setitem model "W" W in
  let* r := np_randn2 (mnist.n_output d) (params.n_h p) in
  let* C := np_map (λ a, fdiv a (fsqrt (lit (inject_Z (params.n_h p))))) r in
  let* _ := setitem model "C" C in
  let* r := np_randn1 (params.n_h p) in
  let* b1 := np_map (λ a, fdiv a (fsqrt (lit (inject_Z (params.n_h p))))) r in
  let* _ := setitem model "b1" b1 in
  let* r := np_randn1 (mnist.n_output d) in
  let* b2 := np_map (λ a, fdiv a (fsqrt (lit (inject_Z (mnist.n_output d))))) r in
  let* _ := setitem model "b2" b2 in
  let* model_grads := deepcopy model in
  ret (model, model_grads).

Definition sigma `{Kernels F} (z : loc) (func : string) : M F loc :=
  if decide (func = "tanh") then np_map ftanh z
  else if decide (func = "sigmoid") then
    let* e1 := np_map fexp z in
    let* e2 := np_map fexp z in
    let* d := np_map (fadd (lit 1)) e2 in
    np_zip fdiv e1 d
  else sys_exit "Unsupported function type!".

(** [t**2] is numpy's square, [t*t]. *)
Definition d_sigma `{Kernels F} (z : loc) (func : string) : M F loc :=
  if decide (func = "tanh") then
    let* t := np_map ftanh z in
    let* s := np_map (λ a, fmul a a) t in
    np_map (fsub (lit 1)) s
  else if decide (func = "sigmoid") then
    let* e1 := np_map fexp z in
    let* e2 := np_map fexp z in
    let* d1 := np_map (fadd (lit 1)) e2 in
    let* q1 := np_zip fdiv e1 d1 in
    let* e3 := np_map fexp z in
    let* e4 := np_map fexp z in
    let* d2 := np_map (fadd (lit 1)) e4 in
    let* q2 := np_zip fdiv e3 d2 in
    let* r := np_map (fsub (lit 1)) q2 in
    np_zip fmul q1 r
  else sys_exit "Unsupported function type!".

Definition softmax_function `{Kernels F} (z : loc) : M F loc :=
  let* e1 := np_map fexp z in
  let* e2 := np_map fexp z in
  let* s := np_sum e2 in
  np_map (λ a, fdiv a s) e1.

Definition forward `{Kernels F} (x model : loc) (func : string)
    : M F (loc * loc * loc) :=
  let* W := getitem model "W" in
  let* t := np_dot W x in
  let* b1 := getitem model "b1" in
  let* Z_ := np_zip fadd t b1 in
  let* H := sigma Z_ func in
  let* C := getitem model "C" in
  let* t := np_dot C H in
  let* b2 := getitem model "b2" in
  let* U := np_zip fadd t b2 in
  let* f := softmax_function U in
  ret (Z_, H, f).

Definition backprop `{Kernels F} (x : loc) (y : Z)
    (f Z_ H model model_grads : loc) (func : string) : M F loc :=
  let* dU := np_map (fmul (lit (-1))) f in
  let* a := arr_getitem dU y in
  let* _ := arr_setitem dU y (fadd a (lit 1)) in
  let db2 := dU in
  let* Ht := np_transpose H in
  let* dC := np_outer dU Ht in
  let* C := getitem model "C" in
  let* Ct := np_transpose C in
  let* delta := np_dot Ct dU in
  let* dZZ := d_sigma Z_ func in
  let* db1 := np_zip fmul delta dZZ in
  let* xt := np_transpose x in
  let* dW := np_outer db1 xt in
  let* _ := setitem model_grads "W" dW in
  let* _ := setitem model_grads "C" dC in
  let* _ := setitem model_grads "b1" db1 in
  let* _ := setitem model_grads "b2" db2 in
  ret model_grads.

(** [x.reshape(28,28)] needs 784 entries; the figure is the event. *)
Definition plot_predict {F} (x : loc) (y pred : Z) : M F unit :=
  let* o := deref x in
  match o with
  | Arr1 v => if decide (length v = 784%nat) then emit (Plot v y pred)
              else raise ValueError
  | Arr2 c rows => if decide ((length rows * c)%nat = 784%nat)
                   then emit (Plot (concat rows) y pred)
                   else raise ValueError
  | _ => raise Unmodelled
  end.

(** lines 305-306: the staircase decay at the head of an epoch *)
Definition lr_schedule `{Float F} (p : params.t F) (epochs : Z) (LR : F)
    : M F F :=
  if decide (0 < epochs)%Z then
    if decide (params.interval p = 0)%Z then raise ZeroDivisionError
    else if decide (epochs `mod` params.interval p = 0)%Z
         then ret (fmul LR (params.decay p))
         else ret LR
  else ret LR.

(** lines 329-332: [model[k] = model[k] + LR*model_grads[k]] *)
Definition update `{Float F} (model model_grads : loc) (LR : F) (k : string)
    : M F unit :=
  let* a := getitem model k in
  let* g := getitem model_grads k in
  let* t := np_map (fmul LR) g in
  let* s := np_zip fadd a t in
  setitem model k s.

(** lines 312-332: the body of the inner loop; the locals it carries are
    [total_correct] and [model_grads].  The slice [x_train[n_random][:]] is a
    view of the data, which nothing writes; it gets a cell of its own. *)
Definition train_sample `{Kernels F} (model : loc) (p : params.t F)
    (d : mnist.t F) (LR : F) (n : Z) (st : Z * loc) : M F (Z * loc) :=
  let total_correct := st.1 in
  let model_grads := st.2 in
  let* n_random := randint 0 (mnist.n_train d - 1) in
  let* y := lift (seq_getitem (mnist.y_train d) n_random) in
  let* xv := lift (seq_getitem (mnist.x_train d) n_random) in
  let* x := alloc (Arr1 xv) in
  let* zhf := forward x model (params.sigma p) in
  let Z_ := zhf.1.1 in
  let H := zhf.1.2 in
  let f := zhf.2 in
  let* prediction := np_argmax f in
  let total_correct :=
    if decide (prediction = y) then (total_correct + 1)%Z else total_correct in
  let* model_grads :=
    backprop x y f Z_ H model model_grads (params.sigma p) in
  let* _ := update model model_grads LR "W" in
  let* _ := update model model_grads LR "C" in
  let* _ := update model model_grads LR "b1" in
  let* _ := update model model_grads LR "b2" in
  ret (total_correct, model_grads).

(** lines 304-335: the body of the outer loop; it carries [LR] and
    [model_grads]. *)
Definition train_epoch `{Kernels F} (model : loc) (p : params.t F)
    (d : mnist.t F) (epochs : Z) (st : F * loc) : M F (F * loc) :=
  let* LR := lr_schedule p epochs st.1 in
  let* r := for_loop (py_range (mnist.n_train d))
              (train_sample model p d LR) (0%Z, st.2) in
  let* acc := py_div_float r.1 (mnist.n_train d) in
  let* _ := emit (EpochReport epochs acc) in
  ret (LR, r.2).

Definition nn_train `{Kernels F} (model model_grads : loc) (p : params.t F)
    (d : mnist.t F) : M F loc :=
  let LR := params.lr p in
  let* _ := for_loop (py_range (params.n_epochs p))
              (train_epoch model p d) (LR, model_grads) in
  ret model.

(** lines 363-382: the body of the test loop; it carries [total_correct],
    [count_correct] and [count_wrong].  As in [train_sample], the slice
    [x_test[n][:]] gets a cell of its own. *)
Definition test_sample `{Kernels F} (model : loc) (p : params.t F)
    (d : mnist.t F) (k : Z) (n : Z) (st : Z * Z * Z) : M F (Z * Z * Z) :=
  let total_correct := st.1.1 in
  let count_correct := st.1.2 in
  let count_wrong := st.2 in
  let* y := lift (seq_getitem (mnist.y_test d) n) in
  let* xv := lift (seq_getitem (mnist.x_test d) n) in
  let* x := alloc (Arr1 xv) in
  let* zhf := forward x model (params.sigma p) in
  let* prediction := np_argmax zhf.2 in
  let* tc :=
    (if decide (prediction = y) then
       let total_correct := (total_correct + 1)%Z in
       if decide (count_correct < k)%Z then
         let* _ := plot_predict x y prediction in
         ret (total_correct, (count_correct + 1)%Z)
       else ret (total_correct, count_correct)
     else ret (total_correct, count_correct)) in
  let* count_wrong :=
    (if decide (prediction ≠ y ∧ (count_wrong < k)%Z) then
       let* _ := plot_predict x y prediction in
       ret (count_wrong + 1)%Z
     else ret count_wrong) in
  ret (tc.1, tc.2, count_wrong).

Definition nn_test `{Kernels F} (model : loc) (p : params.t F) (d : mnist.t F)
    : M F unit :=
  let k := 5%Z in
  let* st := for_loop (py_range (mnist.n_test d))
               (test_sample model p d k) (0%Z, 0%Z, 0%Z) in
  let* acc := py_div_float st.1.1 (mnist.n_test d) in
  emit (TestReport acc).

(** ** Reference formulas

    The formulas of the specification, on array contents, with the
    operations of the arithmetic. *)

(** the logistic function in the form [exp(z)/(1+exp(z))] *)
Definition activate `{Kernels F} (kind : string) (z : F) : F :=
  if decide (kind = "tanh") then ftanh z
  else fdiv (fexp z) (fadd (lit 1) (fexp z)).

(** [1 - tanh(z)^2], and [a (1 - a)] for the logistic [a] *)
Definition activate_derivative `{Kernels F} (kind : string) (z : F) : F :=
  if decide (kind = "tanh") then fsub (lit 1) (fmul (ftanh z) (ftanh z))
  else fmul (activate kind z) (fsub (lit 1) (activate kind z)).

Definition softmax `{Kernels F} (u : list F) : list F :=
  map (λ a, fdiv (fexp a) (fsum (map fexp u))) u.

Definition vadd `{Float F} (u v : list F) : list F := zip_with fadd u v.
Definition vmul `{Float F} (u v : list F) : list F := zip_with fmul u v.

Definition supported (kind : string) : Prop := kind = "tanh" ∨ kind = "sigmoid".

(** ** Reasoning about computations *)

Definition same_io {F} (w w' : world F) : Prop :=
  rand w' = rand w ∧ draws w' = draws w ∧ gauss w' = gauss w ∧
  gdraws w' = gdraws w ∧ out w' = out w.

(** every cell at a location of [P] keeps its content *)
Definition keeps {F} (P : loc → Prop) (w w' : world F) : Prop :=
  ∀ l o, P l → heap w !! l = Some o → heap w' !! l = Some o.

(** [w'] has all the cells of [w], unchanged, and possibly new ones *)
Definition ext {F} (w w' : world F) : Prop :=
  keeps (λ _, True) w w' ∧ same_io w w'.

Definition fresh {F} (w : world F) (l : loc) : Prop := heap w !! l = None.

(** [m] returns from [w], with a value and a state in [Q] *)
Definition returns {F A} (m : M F A) (w : world F) (Q : A → world F → Prop)
    : Prop :=
  ∃ a w', m w = Ok (a, w') ∧ Q a w'.

(** ** Bundles

    The contents of a parameter bundle or of a gradient bundle. *)
Record bundle (F : Type) := Bundle {
  tW : list (list F);
  tC : list (list F);
  tb1 : list F;
  tb2 : list F
}.
Arguments Bundle {F} tW tC tb1 tb2.
Arguments tW {F} b.
Arguments tC {F} b.
Arguments tb1 {F} b.
Arguments tb2 {F} b.

(** the dict at [m] has the keys W, C, b1 and b2, bound to arrays with the
    contents [B]; [D] and [Hn] are the numbers of columns of W and of C *)
Definition holds {F} (h : list (obj F)) (m : loc) (D Hn : nat) (B : bundle F)
    : Prop :=
  ∃ g lW lC lb1 lb2,
    h !! m = Some (Dict g) ∧
    g !! "W" = Some lW ∧ g !! "C" = Some lC ∧
    g !! "b1" = Some lb1 ∧ g !! "b2" = Some lb2 ∧
    h !! lW = Some (Arr2 D (tW B)) ∧ h !! lC = Some (Arr2 Hn (tC B)) ∧
    h !! lb1 = Some (Arr1 (tb1 B)) ∧ h !! lb2 = Some (Arr1 (tb2 B)).

(** W is Hn x D, C is K x Hn, b1 has Hn entries and b2 has K *)
Definition shaped {F} (D Hn K : nat) (B : bundle F) : Prop :=
  length (tW B) = Hn ∧ Forall (λ r, length r = D) (tW B) ∧
  length (tC B) = K ∧ Forall (λ r, length r = Hn) (tC B) ∧
  length (tb1 B) = Hn ∧ length (tb2 B) = K.

(** the forward pass of the specification: [W x] and [C h] are the
    matrix-vector products of [np.dot] *)
Definition fwd_z `{Kernels F} (B : bundle F) (x : list F) : list F :=
  vadd (gemv (tW B) x) (tb1 B).

Definition fwd_h `{Kernels F} (kind : string) (B : bundle F) (x : list F)
    : list F :=
  map (activate kind) (fwd_z B x).

Definition fwd_p `{Kernels F} (kind : string) (B : bundle F) (x : list F)
    : list F :=
  softmax (vadd (gemv (tC B) (fwd_h kind B x)) (tb2 B)).

(** the backward pass of the specification, from the label [y], the forward
    outputs [z], [h], [p], the matrix [C] with [Hn] columns and the input [x].
    one_hot(y) - p is formed as the code forms it: [-1.0 * p], and [1.0]
    added at the entry [y]; [C^T db2] is the product of [np.dot] on the
    transposed view of [C]. *)
Definition grad_b2 `{Float F} (y : nat) (p : list F) : list F :=
  imap (λ i a, if decide (i = y) then fadd (fmul (lit (-1)) a) (lit 1)
               else fmul (lit (-1)) a) p.

Definition grad_C `{Float F} (y : nat) (p h : list F) : list (list F) :=
  outer (grad_b2 y p) h.

Definition grad_b1 `{Kernels F} (kind : string) (Hn : nat) (C : list (list F))
    (y : nat) (p z : list F) : list F :=
  vmul (gemv_t Hn C (grad_b2 y p))
       (map (activate_derivative kind) z).

Definition grad_W `{Kernels F} (kind : string) (Hn : nat) (C : list (list F))
    (y : nat) (p z x : list F) : list (list F) :=
  outer (grad_b1 kind Hn C y p z) x.

Definition gradients `{Kernels F} (kind : string) (Hn : nat)
    (C : list (list F)) (y : nat) (p z h x : list F) : bundle F :=
  {| tW := grad_W kind Hn C y p z x;
     tC := grad_C y p h;
     tb1 := grad_b1 kind Hn C y p z;
     tb2 := grad_b2 y p |}.

(** ** Stochastic gradient steps of the specification *)

(** param + learning_rate * gradient, on vectors and on matrices *)
Definition axpy_v `{Float F} (LR : F) (u g : list F) : list F :=
  zip_with fadd u (map (fmul LR) g).

Definition axpy_m `{Float F} (LR : F) (U G : list (list F)) : list (list F) :=
  zip_with (zip_with fadd) U (map (map (fmul LR)) G).

(** one sample-step on the sample [x] with label [y] *)
Definition sgd_step `{Kernels F} (kind : string) (Hn : nat) (LR : F)
    (B : bundle F) (x : list F) (y : nat) : bundle F :=
  let z := fwd_z B x in
  let h := fwd_h kind B x in
  let p := fwd_p kind B x in
  let G := gradients kind Hn (tC B) y p z h x in
  {| tW := axpy_m LR (tW B) (tW G);
     tC := axpy_m LR (tC B) (tC G);
     tb1 := axpy_v LR (tb1 B) (tb1 G);
     tb2 := axpy_v LR (tb2 B) (tb2 G) |}.

(** the training index chosen by the [i]-th call of [randint] *)
Definition drawn {F} (d : mnist.t F) (rnd : nat → Z) (i : nat) : nat :=
  Z.to_nat (rnd i `mod` mnist.n_train d).

(** [n] sample-steps, reading the draws [i], [i+1], ... *)
Fixpoint sgd_steps `{Kernels F} (kind : string) (Hn : nat) (LR : F)
    (d : mnist.t F) (rnd : nat → Z) (i n : nat) (B : bundle F) : bundle F :=
  match n with
  | O => B
  | S n' =>
      let j := drawn d rnd i in
      sgd_steps kind Hn LR d rnd (S i) n'
        (sgd_step kind Hn LR B (nth j (mnist.x_train d) [])
                  (Z.to_nat (nth j (mnist.y_train d) 0%Z)))
  end.

(** the training set: [n_train] samples of [D] features with labels below [K] *)
Definition train_set_ok {F} (D K : nat) (d : mnist.t F) : Prop :=
  mnist.n_train d = Z.of_nat (length (mnist.x_train d)) ∧
  length (mnist.y_train d) = length (mnist.x_train d) ∧
  Forall (λ x, length x = D) (mnist.x_train d) ∧
  Forall (λ y, 0 ≤ y < Z.of_nat K)%Z (mnist.y_train d).

(** [w'] is [w] after [n] more calls of randint and the events [evs] *)
Definition advanced {F} (n : nat) (evs : list (event F)) (w w' : world F)
    : Prop :=
  rand w' = rand w ∧ draws w' = (draws w + n)%nat ∧ gauss w' = gauss w ∧
  gdraws w' = gdraws w ∧ out w' = out w ++ evs.

(** the staircase schedule of the specification: the rate is multiplied by
    the decay at every positive epoch index divisible by the interval *)
Definition lr_next `{Float F} (p : params.t F) (epochs : Z) (LR : F) : F :=
  if decide (0 < epochs ∧ epochs `mod` params.interval p = 0)%Z
  then fmul LR (params.decay p) else LR.

(** [n] epochs from epoch [e] on, each of [n_train] sample-steps; [LR] is the
    rate before epoch [e] and [i] the number of draws made before it *)
Fixpoint sgd_epochs `{Kernels F} (kind : string) (Hn : nat) (p : params.t F)
    (d : mnist.t F) (rnd : nat → Z) (i e n : nat) (LR : F) (B : bundle F)
    : bundle F :=
  match n with
  | O => B
  | S n' =>
      let LR' := lr_next p (Z.of_nat e) LR in
      let N1 := Z.to_nat (mnist.n_train d) in
      sgd_epochs kind Hn p d rnd (i + N1) (S e) n' LR'
        (sgd_steps kind Hn LR' d rnd i N1 B)
  end.

(** the rate of the specification for epoch [e]: the initial rate multiplied
    [e / interval] times (integer division) by the decay *)
Definition staircase `{Float F} (p : params.t F) (e : Z) : F :=
  Nat.iter (Z.to_nat (e `div` params.interval p))
    (λ LR, fmul LR (params.decay p)) (params.lr p).

(** the training loop of the specification: the sample-steps of epoch [e]
    use the rate [rate e]; the loop carries [model_grads] only *)
Definition epoch_at_rate `{Kernels F} (model : loc) (p : params.t F)
    (d : mnist.t F) (rate : Z → F) (epochs : Z) (model_grads : loc)
    : M F loc :=
  let* r := for_loop (py_range (mnist.n_train d))
              (train_sample model p d (rate epochs)) (0%Z, model_grads) in
  let* acc := py_div_float r.1 (mnist.n_train d) in
  let* _ := emit (EpochReport epochs acc) in
  ret r.2.

Definition train_at_rates `{Kernels F} (model model_grads : loc)
    (p : params.t F) (d : mnist.t F) (rate : Z → F) : M F loc :=
  let* _ := for_loop (py_range (params.n_epochs p))
              (epoch_at_rate model p d rate) model_grads in
  ret model.

(** one report per epoch, in order *)
Definition epoch_reports {F} (epochs : list Z) (evs : list (event F)) : Prop :=
  Forall2 (λ e ev, ∃ acc, ev = EpochReport e acc) epochs evs.

(** ** Evaluation in the specification *)

(** the class predicted for [x]: the arg-max of the output distribution *)
Definition predict `{Kernels F} (kind : string) (B : bundle F) (x : list F)
    : Z :=
  match argmax (fwd_p kind B x) with
  | Ok r => r
  | Raise _ => 0%Z
  end.

(** test sample [i] with its label and the predicted label *)
Definition outcome `{Kernels F} (kind : string) (B : bundle F) (d : mnist.t F)
    (i : nat) : event F :=
  let x := nth i (mnist.x_test d) [] in
  Plot x (nth i (mnist.y_test d) 0%Z) (predict kind B x).

(** all test samples, in their original order *)
Definition outcomes `{Kernels F} (kind : string) (B : bundle F)
    (d : mnist.t F) : list (event F) :=
  map (outcome kind B d) (seq 0 (Z.to_nat (mnist.n_test d))).

Definition correct {F} (ev : event F) : Prop :=
  match ev with
  | Plot _ y pred => pred = y
  | _ => False
  end.

#[global] Instance correct_dec {F} (ev : event F) : Decision (correct ev).
Proof. destruct ev; simpl; apply _. Defined.

(** the figures drawn for a run of outcomes when [cc] correct and [cw] wrong
    ones were drawn before: lines 372-382 *)
Fixpoint shown {F} (k cc cw : Z) (evs : list (event F)) : list (event F) :=
  match evs with
  | [] => []
  | ev :: t =>
      if decide (correct ev) then
        if decide (cc < k)%Z then ev :: shown k (cc + 1) cw t
        else shown k cc cw t
      else
        if decide (cw < k)%Z then ev :: shown k cc (cw + 1) t
        else shown k cc cw t
  end.

(** the test set: [n_test] samples of [D] features, each with a label *)
Definition test_set_ok {F} (D : nat) (d : mnist.t F) : Prop :=
  mnist.n_test d = Z.of_nat (length (mnist.x_test d)) ∧
  length (mnist.y_test d) = length (mnist.x_test d) ∧
  Forall (λ x, length x = D) (mnist.x_test d).

(** [m] never ends in [sys.exit] *)
Definition no_exit {F A} (m : M F A) : Prop :=
  ∀ w msg, m w ≠ Raise (SystemExit msg).

(** ** Model construction in terms of the samples of [randn] *)

(** [w'] is [w] after [n] more samples of [np.random.randn] *)
Definition sampled {F} (n : nat) (w w' : world F) : Prop :=
  rand w' = rand w ∧ draws w' = draws w ∧ gauss w' = gauss w ∧
  gdraws w' = (gdraws w + n)%nat ∧ out w' = out w.

Definition randn_rows {F} (g : nat → F) (i r c : nat) : list (list F) :=
  map (λ a, map (λ b, g (i + (a * c + b))%nat) (seq 0 c)) (seq 0 r).

Definition randn_vec {F} (g : nat → F) (i n : nat) : list F :=
  map (λ a, g (i + a)%nat) (seq 0 n).

(** the bundle built from the samples [i], [i+1], ... for the sizes
    [n_input], [n_h], [n_output] *)
Definition init_bundle `{Float F} (g : nat → F) (i : nat)
    (n_input n_h n_output : Z) : bundle F :=
  let D := Z.to_nat n_input in
  let Hn := Z.to_nat n_h in
  let K := Z.to_nat n_output in
  {| tW := map (map (λ a, fdiv a (fsqrt (lit (inject_Z n_input)))))
             (randn_rows g i Hn D);
     tC := map (map (λ a, fdiv a (fsqrt (lit (inject_Z n_h)))))
             (randn_rows g (i + Hn * D) K Hn);
     tb1 := map (λ a, fdiv a (fsqrt (lit (inject_Z n_h))))
              (randn_vec g (i + Hn * D + K * Hn) Hn);
     tb2 := map (λ a, fdiv a (fsqrt (lit (inject_Z n_output))))
              (randn_vec g (i + Hn * D + K * Hn + Hn) K) |}.

(** every value is copied to a new cell, under its key *)
Definition copied {F} (w w' : world F) (kl kl' : string * loc) : Prop :=
  kl'.1 = kl.1 ∧ fresh w kl'.2 ∧
  ∃ o, heap w' !! kl.2 = Some o ∧ heap w' !! kl'.2 = Some o.

(** ** Two arithmetics *)

(** *** binary64, on the primitive floats *)

(** an int as a float: exact below 2^53 *)
Definition float_of_Z (z : Z) : PrimFloat.float :=
  if (z <? 0)%Z
  then PrimFloat.opp (PrimFloat.of_uint63 (Uint63.of_Z (- z)))
  else PrimFloat.of_uint63 (Uint63.of_Z z).

(** the literal [n/d] is the quotient of its two ints, which division rounds
    to the nearest float *)
#[export] Instance binary64 : Float PrimFloat.float := {|
  lit q := PrimFloat.div (float_of_Z (Qnum q)) (float_of_Z (Zpos (Qden q)));
  fadd := PrimFloat.add;
  fsub := PrimFloat.sub;
  fmul := PrimFloat.mul;
  fdiv := PrimFloat.div;
  fsqrt := PrimFloat.sqrt;
  fle := PrimFloat.leb;
  isnan := PrimFloat.is_nan
|}.

(** What numpy adds to the arithmetic of binary64: libm's [exp] and
    [tanh], and the two kernels. *)
Class kernels64 := {
  m_exp : PrimFloat.float → PrimFloat.float;
  m_tanh : PrimFloat.float → PrimFloat.float;
  m_sum : list PrimFloat.float → PrimFloat.float;
  m_gemv : list (list PrimFloat.float) → list PrimFloat.float
           → list PrimFloat.float;
  m_gemv_t : nat → list (list PrimFloat.float) → list PrimFloat.float
             → list PrimFloat.float;
  m_gemv_length rows v : length (m_gemv rows v) = length rows;
  m_gemv_t_length c rows v : length (m_gemv_t c rows v) = c
}.

#[export] Instance binary64_kernels `{kernels64} : Kernels PrimFloat.float := {|
  fexp := m_exp;
  ftanh := m_tanh;
  fsum := m_sum;
  gemv := m_gemv;
  gemv_t := m_gemv_t;
  gemv_length := m_gemv_length;
  gemv_t_length := m_gemv_t_length
|}.

(** *** exact arithmetic, on the reals *)

#[global] Instance Rle_decision (a b : R) : Decision (a <= b) := Rle_dec a b.

#[export] Instance real_float : Float R := {|
  lit := Q2R;
  fadd := Rplus;
  fsub := Rminus;
  fmul := Rmult;
  fdiv := Rdiv;
  fsqrt := sqrt;
  fle a b := bool_decide (a <= b);
  isnan _ := false
|}.

Definition vsum (v : list R) : R := foldr Rplus 0 v.

Definition dotp (u v : list R) : R := vsum (zip_with Rmult u v).

#[export] Instance real_kernels : Kernels R := {|
  fexp := exp;
  ftanh := tanh;
  fsum := vsum;
  gemv rows v := map (λ r, dotp r v) rows;
  gemv_t c rows v := map (λ r, dotp r v) (transpose c rows);
  gemv_length rows v := length_map (λ r, dotp r v) rows;
  gemv_t_length c rows v :=
    eq_trans (length_map (λ r, dotp r v) (transpose c rows))
             (length_transpose c rows)
|}.

(** ** Concrete states

    In exact arithmetic: a bundle with one input, one hidden unit and one
    class, the cells of a forward pass and an empty gradient dict; the same
    with 784 inputs. *)

Definition tiny_dict : gmap string loc :=
  <["b2" := 4%nat]> (<["b1" := 3%nat]> (<["C" := 2%nat]> (<["W" := 1%nat]> ∅))).

Definition tiny_bundle : bundle R :=
  {| tW := [[0]]; tC := [[0]]; tb1 := [0]; tb2 := [0] |}.

Definition tiny_heap : list (obj R) :=
  [Dict tiny_dict; Arr2 1 [[0]]; Arr2 1 [[0]]; Arr1 [0]; Arr1 [0];
   Dict ∅; Arr1 [0]; Arr1 [1]; Arr1 [0]; Arr1 [0]; Arr1 []].

Definition tiny_world : world R :=
  World tiny_heap (λ _, 0%Z) 0 (λ _, 0) 0 [].

Definition tiny_mnist : mnist.t R :=
  {| mnist.x_train := [[0]]; mnist.y_train := [0%Z];
     mnist.x_test := [[0]]; mnist.y_test := [0%Z];
     mnist.n_train := 1; mnist.n_test := 1;
     mnist.n_input := 1; mnist.n_output := 1 |}.

Definition relu_params : params.t R :=
  {| params.lr := lit 0.1; params.decay := lit 0.1; params.interval := 5;
     params.n_epochs := 20; params.n_h := 1; params.sigma := "relu" |}.

Definition image_bundle : bundle R :=
  {| tW := [replicate 784 0]; tC := [[0]]; tb1 := [0]; tb2 := [0] |}.

Definition image_world : world R :=
  World [Dict tiny_dict; Arr2 784 [replicate 784 0]; Arr2 1 [[0]];
         Arr1 [0]; Arr1 [0]]
        (λ _, 0%Z) 0 (λ _, 0) 0 [].

Definition image_mnist : mnist.t R :=
  {| mnist.x_train := [replicate 784 0]; mnist.y_train := [0%Z];
     mnist.x_test := [replicate 784 0]; mnist.y_test := [0%Z];
     mnist.n_train := 1; mnist.n_test := 1;
     mnist.n_input := 784; mnist.n_output := 1 |}.

(** parameters and data for the edge cases *)

Definition negative_size_params : params.t R :=
  {| params.lr := lit 0.1; params.decay := lit 0.1; params.interval := 5;
     params.n_epochs := 20; params.n_h := -1; params.sigma := "tanh" |}.

Definition no_epoch_params : params.t R :=
  {| params.lr := lit 0.1; params.decay := lit 0.1; params.interval := 5;
     params.n_epochs := 0; params.n_h := 1; params.sigma := "relu" |}.

Definition zero_interval_params `{Float F} : params.t F :=
  {| params.lr := lit 0.1; params.decay := lit 0.1; params.interval := 0;
     params.n_epochs := 20; params.n_h := 1; params.sigma := "tanh" |}.

Definition negative_interval_params `{Float F} : params.t F :=
  {| params.lr := lit 0.1; params.decay := lit 0.1; params.interval := -5;
     params.n_epochs := 20; params.n_h := 64; params.sigma := "sigmoid" |}.

Definition empty_mnist : mnist.t R :=
  {| mnist.x_train := []; mnist.y_train := [];
     mnist.x_test := []; mnist.y_test := [];
     mnist.n_train := 0; mnist.n_test := 0;
     mnist.n_input := 1; mnist.n_output := 1 |}.

(** In binary64: a state with the arrays [[1000., 0.]] and [[1000.]], and a
    stand-in for libm that knows [exp] only where it overflows (above
    709.79) and where it underflows to 0 (below -745.14), and is 1 in
    between, as [exp] is at 0; its kernels add from left to right. *)

Definition world64 : world PrimFloat.float :=
  World [Arr1 [lit 1000; lit 0]; Arr1 [lit 1000]]
        (λ _, 0%Z) 0 (λ _, lit 0) 0 [].

Definition coarse_exp (x : PrimFloat.float) : PrimFloat.float :=
  if PrimFloat.ltb (lit 709.79) x then PrimFloat.infinity
  else if PrimFloat.ltb x (lit (-745.14)) then lit 0
  else lit 1.

Definition sum64 (v : list PrimFloat.float) : PrimFloat.float :=
  fold_left PrimFloat.add v (lit 0).

Definition coarse64 : kernels64 := {|
  m_exp := coarse_exp;
  m_tanh x := x;
  m_sum := sum64;
  m_gemv rows v := map (λ r, sum64 (zip_with PrimFloat.mul r v)) rows;
  m_gemv_t c rows v :=
    map (λ r, sum64 (zip_with PrimFloat.mul r v)) (transpose c rows);
  m_gemv_length rows v :=
    length_map (λ r, sum64 (zip_with PrimFloat.mul r v)) rows;
  m_gemv_t_length c rows v :=
    eq_trans (length_map (λ r, sum64 (zip_with PrimFloat.mul r v))
                (transpose c rows))
             (length_transpose c rows)
|}.

Definition coarse_kernels : Kernels PrimFloat.float :=
  @binary64_kernels coarse64.

(** * Lemmas *)

Section store_facts.
Context {F : Type}.
Implicit Types w : world F.

Lemma same_io_refl w : same_io w w.
Proof. by repeat split. Qed.

Lemma same_io_trans w1 w2 w3 : same_io w1 w2 → same_io w2 w3 → same_io w1 w3.
Proof. unfold same_io. intros (?&?&?&?&?) (?&?&?&?&?). repeat split; congruence. Qed.

Lemma keeps_refl P w : keeps P w w.
Proof. by intros l o _ H. Qed.

Lemma keeps_trans (P Q : loc → Prop) w1 w2 w3 :
  keeps P w1 w2 → keeps Q w2 w3 → keeps (λ l, P l ∧ Q l) w1 w3.
Proof. intros H1 H2 l o [HP HQ] H. apply H2; [done|]. by apply H1. Qed.

Lemma keeps_weaken (P Q : loc → Prop) w w' :
  keeps P w w' → (∀ l, is_Some (heap w !! l) → Q l → P l) → keeps Q w w'.
Proof. intros H HPQ l o HQ Hl. apply H; [|done]. apply HPQ; [by eexists|done]. Qed.

Lemma ext_refl w : ext w w.
Proof. split; [apply keeps_refl | apply same_io_refl]. Qed.

Lemma ext_trans w1 w2 w3 : ext w1 w2 → ext w2 w3 → ext w1 w3.
Proof.
  intros [K1 I1] [K2 I2]. split; [|by eapply same_io_trans].
  intros l o _ H. apply K2; [done|]. by apply K1.
Qed.

Lemma ext_lookup w w' l o : ext w w' → heap w !! l = Some o → heap w' !! l = Some o.
Proof. intros [K _] H. by apply K. Qed.

Lemma ext_keeps P w w' : ext w w' → keeps P w w'.
Proof. intros [K _] l o _ H. by apply K. Qed.

Lemma ext_io w w' : ext w w' → same_io w w'.
Proof. by intros [_ ?]. Qed.

Lemma returns_ret {A} (a : A) w (Q : A → world F → Prop) :
  Q a w → returns (ret a) w Q.
Proof. intros H. by exists a, w. Qed.

Lemma returns_bind {A B} (m : M F A) (k : A → M F B) w (Q : B → world F → Prop) :
  returns m w (λ a w', returns (k a) w' Q) → returns (bind m k) w Q.
Proof.
  intros (a & w' & E & b & w'' & E' & HQ). exists b, w''. split; [|done].
  unfold bind. by rewrite E.
Qed.

Lemma deref_spec l o w :
  heap w !! l = Some o → deref l w = Ok (o, w).
Proof. unfold deref. by intros ->. Qed.

Lemma returns_deref {B} l o (k : obj F → M F B) w (Q : B → world F → Prop) :
  heap w !! l = Some o → returns (k o) w Q → returns (bind (deref l) k) w Q.
Proof.
  intros H (b & w' & E & HQ). exists b, w'. split; [|done].
  unfold bind. by rewrite (deref_spec _ _ _ H).
Qed.

Lemma returns_mono {A} (m : M F A) w (Q Q' : A → world F → Prop) :
  returns m w Q → (∀ a w', Q a w' → Q' a w') → returns m w Q'.
Proof. intros (a & w' & E & HQ) H. exists a, w'. eauto. Qed.

Lemma returns_lift {A} (r : result A) (a : A) w (Q : A → world F → Prop) :
  r = Ok a → Q a w → returns (lift r) w Q.
Proof. intros -> H. by exists a, w. Qed.

Lemma fresh_ext w w' l : ext w w' → fresh w' l → fresh w l.
Proof.
  intros X Fr. unfold fresh in *. destruct (heap w !! l) as [o|] eqn:E; [|done].
  by rewrite (ext_lookup _ _ _ _ X E) in Fr.
Qed.

(** a write to a cell allocated since [w0] is not seen from [w0] *)
Lemma ext_write_fresh w0 w1 w2 l :
  ext w0 w1 → fresh w0 l → keeps (λ l', l' ≠ l) w1 w2 → same_io w1 w2 →
  ext w0 w2.
Proof.
  intros [K1 I1] Fr K2 I2. split; [|by eapply same_io_trans].
  intros l' o _ H. apply K2.
  - intros ->. unfold fresh in Fr. congruence.
  - by apply K1.
Qed.

(** a cell that holds another object than the one at [d] is not [d] *)
Lemma keeps_other d o1 l o2 w w' :
  keeps (λ l', l' ≠ d) w w' → heap w !! d = Some o1 → heap w !! l = Some o2 →
  o1 ≠ o2 → heap w' !! l = Some o2.
Proof. intros K Hd Hl Hne. apply K; [|done]. intros ->. congruence. Qed.

End store_facts.

(** one step of a computation: use the specification [L] of its head *)
Tactic Notation "step" open_constr(L) :=
  apply returns_bind; eapply returns_mono; [eapply L | cbv beta].

Ltac lk :=
  solve [ eassumption
        | match goal with
          | X : ext ?w ?w' |- heap ?w' !! _ = Some _ =>
              apply (ext_lookup _ _ _ _ X); lk
          end ].

(** read a cell whose content is known *)
Ltac rd := eapply returns_deref; [lk | cbv beta iota].

Ltac xt :=
  solve [ apply ext_refl | eassumption
        | eapply ext_trans; [eassumption|]; xt ].

Ltac fr :=
  solve [ eassumption
        | match goal with
          | X : ext ?w ?w' |- fresh ?w _ => apply (fresh_ext _ _ _ X); fr
          end ].

(** move what is known of the cells of [w] to an extension of [w] *)
Ltac bring X :=
  match type of X with
  | ext ?w _ =>
      repeat match goal with
             | H : heap w !! _ = Some _ |- _ => apply (ext_lookup _ _ _ _ X) in H
             end
  end.

(** the same across a write to the dict at [d]: arrays are other cells *)
Ltac carry K Hd :=
  match type of K with
  | keeps _ ?w _ =>
      repeat match goal with
             | H : heap w !! _ = Some _ |- _ =>
                 apply (keeps_other _ _ _ _ _ _ K Hd) in H; [|discriminate]
             end
  end.

Ltac bringk X :=
  match type of X with
  | keeps _ ?w _ =>
      repeat match goal with
             | H : heap w !! _ = Some _ |- _ => apply (X _ _ I) in H
             end
  end.

(** run the [ret]s at the head of a computation *)
Ltac rr := repeat first [apply returns_ret | apply returns_bind].

Section passes.
Context {F : Type} {fl : Float F} {kn : Kernels F}.
Implicit Types w : world F.
Implicit Types B : bundle F.

Lemma alloc_spec o w :
  returns (alloc o) w
    (λ l w', ext w w' ∧ fresh w l ∧ heap w' !! l = Some o).
Proof.
  exists (length (heap w)), (set_heap w (heap w ++ [o])). split; [done|].
  split; [split|split].
  - intros l o' _ Hl. simpl. by apply lookup_app_l_Some.
  - by repeat split.
  - by apply lookup_ge_None_2.
  - simpl. by rewrite list_lookup_middle.
Qed.

Lemma store_spec l o o' w :
  heap w !! l = Some o →
  returns (store l o') w
    (λ _ w', keeps (λ l', l' ≠ l) w w' ∧ same_io w w' ∧
             heap w' !! l = Some o').
Proof.
  intros Hl. exists tt, (set_heap w (<[l := o']> (heap w))). split; [done|].
  split; [|split].
  - intros l' o'' Hne Hl'. simpl. by rewrite list_lookup_insert_ne.
  - by repeat split.
  - simpl. apply list_lookup_insert_eq. by eapply lookup_lt_Some.
Qed.

Lemma getitem_spec d g k l w :
  heap w !! d = Some (Dict g) → g !! k = Some l →
  returns (getitem d k) w (λ a w', a = l ∧ w' = w).
Proof.
  intros Hd Hk. unfold getitem. rd.
  rewrite Hk. by apply returns_ret.
Qed.

Lemma setitem_spec d g k v w :
  heap w !! d = Some (Dict g) →
  returns (setitem d k v) w
    (λ _ w', keeps (λ l', l' ≠ d) w w' ∧ same_io w w' ∧
             heap w' !! d = Some (Dict (<[k := v]> g))).
Proof.
  intros Hd. unfold setitem. rd.
  by eapply store_spec.
Qed.

Lemma np_map_spec f a v w :
  heap w !! a = Some (Arr1 v) →
  returns (np_map f a) w
    (λ l w', ext w w' ∧ fresh w l ∧ heap w' !! l = Some (Arr1 (map f v))).
Proof.
  intros Ha. unfold np_map. rd.
  apply alloc_spec.
Qed.

Lemma np_map_spec2 f a c rows w :
  heap w !! a = Some (Arr2 c rows) →
  returns (np_map f a) w
    (λ l w', ext w w' ∧ fresh w l ∧
             heap w' !! l = Some (Arr2 c (map (map f) rows))).
Proof.
  intros Ha. unfold np_map. rd.
  apply alloc_spec.
Qed.

Lemma zip1_same (f : F → F → F) u v :
  length u = length v → zip1 f u v = Ok (zip_with f u v).
Proof. intros E. unfold zip1. by rewrite decide_True. Qed.

Lemma np_zip_spec f a b u v w :
  heap w !! a = Some (Arr1 u) → heap w !! b = Some (Arr1 v) →
  length u = length v →
  returns (np_zip f a b) w
    (λ l w', ext w w' ∧ fresh w l ∧
             heap w' !! l = Some (Arr1 (zip_with f u v))).
Proof.
  intros Ha Hb E. unfold np_zip. do 2 rd.
  apply returns_bind. eapply returns_lift; [by apply zip1_same|].
  apply alloc_spec.
Qed.

Lemma np_zip_spec2 f a b c r1 r2 w :
  heap w !! a = Some (Arr2 c r1) → heap w !! b = Some (Arr2 c r2) →
  length r1 = length r2 →
  returns (np_zip f a b) w
    (λ l w', ext w w' ∧ fresh w l ∧
             heap w' !! l = Some (Arr2 c (zip_with (zip_with f) r1 r2))).
Proof.
  intros Ha Hb E. unfold np_zip. do 2 rd.
  rewrite decide_True by done. apply alloc_spec.
Qed.

Lemma np_sum_spec a v w :
  heap w !! a = Some (Arr1 v) →
  returns (np_sum a) w (λ s w', s = fsum v ∧ w' = w).
Proof.
  intros Ha. unfold np_sum. rd.
  by apply returns_ret.
Qed.

Lemma np_dot_spec a b c rows v w :
  heap w !! a = Some (Arr2 c rows) → heap w !! b = Some (Arr1 v) →
  c = length v →
  returns (np_dot a b) w
    (λ l w', ext w w' ∧ fresh w l ∧
             heap w' !! l = Some (Arr1 (gemv rows v))).
Proof.
  intros Ha Hb E. unfold np_dot. do 2 rd.
  rewrite decide_True by done. apply alloc_spec.
Qed.

Lemma np_dot_t_spec a b c rows v w :
  heap w !! a = Some (ArrT c rows) → heap w !! b = Some (Arr1 v) →
  length rows = length v →
  returns (np_dot a b) w
    (λ l w', ext w w' ∧ fresh w l ∧
             heap w' !! l = Some (Arr1 (gemv_t c rows v))).
Proof.
  intros Ha Hb E. unfold np_dot. do 2 rd.
  rewrite decide_True by done. apply alloc_spec.
Qed.

Lemma np_transpose_spec1 a v w :
  heap w !! a = Some (Arr1 v) →
  returns (np_transpose a) w (λ l w', l = a ∧ w' = w).
Proof.
  intros Ha. unfold np_transpose. rd.
  by apply returns_ret.
Qed.

Lemma np_transpose_spec2 a c rows w :
  heap w !! a = Some (Arr2 c rows) →
  returns (np_transpose a) w
    (λ l w', ext w w' ∧ fresh w l ∧
             heap w' !! l = Some (ArrT c rows)).
Proof.
  intros Ha. unfold np_transpose. rd.
  apply alloc_spec.
Qed.

Lemma np_outer_spec a b u v w :
  heap w !! a = Some (Arr1 u) → heap w !! b = Some (Arr1 v) →
  returns (np_outer a b) w
    (λ l w', ext w w' ∧ fresh w l ∧
             heap w' !! l = Some (Arr2 (length v) (outer u v))).
Proof.
  intros Ha Hb. unfold np_outer. do 2 rd.
  apply alloc_spec.
Qed.

Lemma np_argmax_spec a v r w :
  heap w !! a = Some (Arr1 v) → argmax v = Ok r →
  returns (np_argmax a) w (λ k w', k = r ∧ w' = w).
Proof.
  intros Ha E. unfold np_argmax. rd.
  by eapply returns_lift.
Qed.

(** ** Activation and softmax *)

Lemma zip_with_map_map {T1 T2 T3 T4} (f : T2 → T3 → T4) (g : T1 → T2)
    (h : T1 → T3) l :
  zip_with f (map g l) (map h l) = map (λ a, f (g a) (h a)) l.
Proof. induction l; simpl; congruence. Qed.

Lemma sigma_spec z zv func w :
  heap w !! z = Some (Arr1 zv) → supported func →
  returns (sigma z func) w
    (λ l w', ext w w' ∧ fresh w l ∧
             heap w' !! l = Some (Arr1 (map (activate func) zv))).
Proof.
  intros Hz [-> | ->]; unfold sigma, activate; simpl.
  - by apply np_map_spec.
  - step np_map_spec; [lk|]. intros e1 w1 (X1 & F1 & L1).
    step np_map_spec; [lk|]. intros e2 w2 (X2 & F2 & L2).
    step np_map_spec; [lk|]. intros d w3 (X3 & F3 & L3).
    eapply returns_mono; [eapply np_zip_spec; [lk|lk|]|].
    + by rewrite !length_map.
    + intros l w4 (X4 & F4 & L4). split; [xt|]. split; [fr|].
      rewrite L4. by rewrite map_map, zip_with_map_map.
Qed.

Lemma d_sigma_spec z zv func w :
  heap w !! z = Some (Arr1 zv) → supported func →
  returns (d_sigma z func) w
    (λ l w', ext w w' ∧ fresh w l ∧
             heap w' !! l = Some (Arr1 (map (activate_derivative func) zv))).
Proof.
  intros Hz [-> | ->]; unfold d_sigma, activate_derivative, activate; simpl.
  - step np_map_spec; [lk|]. intros t w1 (X1 & F1 & L1).
    step np_map_spec; [lk|]. intros s w2 (X2 & F2 & L2).
    eapply returns_mono; [eapply np_map_spec; lk|].
    intros l w3 (X3 & F3 & L3). split; [xt|]. split; [fr|].
    rewrite L3. by rewrite !map_map.
  - step np_map_spec; [lk|]. intros e1 w1 (X1 & F1 & L1).
    step np_map_spec; [lk|]. intros e2 w2 (X2 & F2 & L2).
    step np_map_spec; [lk|]. intros d1 w3 (X3 & F3 & L3).
    step np_zip_spec; [lk|lk|by rewrite !length_map|].
    intros q1 w4 (X4 & F4 & L4).
    step np_map_spec; [lk|]. intros e3 w5 (X5 & F5 & L5).
    step np_map_spec; [lk|]. intros e4 w6 (X6 & F6 & L6).
    step np_map_spec; [lk|]. intros d2 w7 (X7 & F7 & L7).
    step np_zip_spec; [lk|lk|by rewrite !length_map|].
    intros q2 w8 (X8 & F8 & L8).
    step np_map_spec; [lk|]. intros r w9 (X9 & F9 & L9).
    eapply returns_mono; [eapply np_zip_spec; [lk|lk|]|].
    + by rewrite length_map, !length_zip_with, !length_map.
    + intros l w10 (X10 & F10 & L10). split; [xt|]. split; [fr|].
      rewrite L10.
      by repeat first [rewrite map_map | rewrite zip_with_map_map].
Qed.

Lemma softmax_function_spec z zv w :
  heap w !! z = Some (Arr1 zv) →
  returns (softmax_function z) w
    (λ l w', ext w w' ∧ fresh w l ∧ heap w' !! l = Some (Arr1 (softmax zv))).
Proof.
  intros Hz. unfold softmax_function.
  step np_map_spec; [lk|]. intros e1 w1 (X1 & F1 & L1).
  step np_map_spec; [lk|]. intros e2 w2 (X2 & F2 & L2).
  step np_sum_spec; [lk|]. intros s ? [-> ->].
  eapply returns_mono; [eapply np_map_spec; lk|].
  intros l w3 (X3 & F3 & L3). split; [xt|]. split; [fr|].
  rewrite L3. by rewrite map_map.
Qed.

(** ** The forward pass *)

Lemma forward_spec x xv m D Hn K B func w :
  holds (heap w) m D Hn B → shaped D Hn K B →
  heap w !! x = Some (Arr1 xv) → length xv = D → supported func →
  returns (forward x m func) w
    (λ r w', ext w w' ∧
       fresh w r.1.1 ∧ fresh w r.1.2 ∧ fresh w r.2 ∧
       heap w' !! r.1.1 = Some (Arr1 (fwd_z B xv)) ∧
       heap w' !! r.1.2 = Some (Arr1 (fwd_h func B xv)) ∧
       heap w' !! r.2 = Some (Arr1 (fwd_p func B xv))).
Proof.
  intros (g & lW & lC & lb1 & lb2 & Hm & HW & HC & Hb1 & Hb2 &
          LW & LC & Lb1 & Lb2) (SW & SWr & SC & SCr & Sb1 & Sb2) Hx Hlen Hf.
  unfold forward.
  step getitem_spec; [lk|done|]. intros ? ? [-> ->].
  step np_dot_spec; [lk|lk|done|]. intros t w1 (X1 & F1 & L1).
  step getitem_spec; [lk|done|]. intros ? ? [-> ->].
  step np_zip_spec; [lk|lk|by rewrite gemv_length; lia|].
  intros Z_ w2 (X2 & F2 & L2).
  step sigma_spec; [lk|done|]. intros Hc w3 (X3 & F3 & L3).
  step getitem_spec; [lk|done|]. intros ? ? [-> ->].
  step np_dot_spec; [lk|lk| |].
  { by rewrite length_map, length_zip_with, gemv_length; lia. }
  intros t' w4 (X4 & F4 & L4).
  step getitem_spec; [lk|done|]. intros ? ? [-> ->].
  step np_zip_spec; [lk|lk|by rewrite gemv_length; lia|].
  intros U w5 (X5 & F5 & L5).
  step softmax_function_spec; [lk|]. intros f w6 (X6 & F6 & L6).
  apply returns_ret. simpl.
  split; [xt|]. split; [fr|]. split; [fr|]. split; [fr|].
  split; [lk|]. split; [lk|]. exact L6.
Qed.

End passes.

Section steps.
Context {F : Type} {fl : Float F} {kn : Kernels F}.
Implicit Types w : world F.
Implicit Types B : bundle F.

(** ** The backward pass *)

Lemma arr_getitem_spec a (v : list F) i k r w :
  heap w !! a = Some (Arr1 v) → py_index (length v) i = Some k →
  v !! k = Some r →
  returns (arr_getitem a i) w (λ r' w', r' = r ∧ w' = w).
Proof.
  intros Ha Hi Hk. unfold arr_getitem. rd.
  eapply returns_lift; [|done]. unfold seq_getitem. by rewrite Hi, Hk.
Qed.

Lemma arr_setitem_spec a (v : list F) i k r w :
  heap w !! a = Some (Arr1 v) → py_index (length v) i = Some k →
  returns (arr_setitem a i r) w
    (λ _ w', keeps (λ l', l' ≠ a) w w' ∧ same_io w w' ∧
             heap w' !! a = Some (Arr1 (<[k := r]> v))).
Proof.
  intros Ha Hi. unfold arr_setitem. rd. rewrite Hi. by eapply store_spec.
Qed.

Lemma py_index_nat n (k : nat) :
  (k < n)%nat → py_index n (Z.of_nat k) = Some k.
Proof.
  intros Hk. unfold py_index. rewrite decide_True by lia. by rewrite Nat2Z.id.
Qed.

(** [dU = -1.0*f; dU[y] = dU[y] + 1.0] forms one_hot(y) - f *)
Lemma dU_grad_b2 (pv : list F) y a :
  pv !! y = Some a →
  <[y := fadd (fmul (lit (-1)) a) (lit 1)]> (map (fmul (lit (-1))) pv)
  = grad_b2 y pv.
Proof.
  intros Hy. pose proof (lookup_lt_Some _ _ _ Hy) as Hlt.
  apply list_eq. intros i. unfold grad_b2. rewrite list_lookup_imap.
  destruct (decide (i = y)) as [->|Hne].
  - rewrite list_lookup_insert_eq by (by rewrite length_map).
    by rewrite Hy.
  - rewrite list_lookup_insert_ne by done. by rewrite list_lookup_fmap.
Qed.


Lemma length_grad_b2 y (pv : list F) : length (grad_b2 y pv) = length pv.
Proof. unfold grad_b2. by rewrite length_imap. Qed.

Lemma backprop_spec x xv y k f pv Z_ zv Hl hv m g lC Hn Cm mg gg func w :
  heap w !! x = Some (Arr1 xv) → heap w !! f = Some (Arr1 pv) →
  heap w !! Z_ = Some (Arr1 zv) → heap w !! Hl = Some (Arr1 hv) →
  heap w !! m = Some (Dict g) → g !! "C" = Some lC →
  heap w !! lC = Some (Arr2 Hn Cm) →
  heap w !! mg = Some (Dict gg) →
  length Cm = length pv → length zv = Hn →
  py_index (length pv) y = Some k → (k < length pv)%nat →
  supported func →
  returns (backprop x y f Z_ Hl m mg func) w
    (λ r w', r = mg ∧ keeps (λ l, l ≠ mg) w w' ∧ same_io w w' ∧
       ∃ lW lC' lb1 lb2,
         fresh w lW ∧ fresh w lC' ∧ fresh w lb1 ∧ fresh w lb2 ∧
         heap w' !! mg =
           Some (Dict (<["b2" := lb2]> (<["b1" := lb1]>
                        (<["C" := lC']> (<["W" := lW]> gg))))) ∧
         heap w' !! lW =
           Some (Arr2 (length xv) (grad_W func Hn Cm k pv zv xv)) ∧
         heap w' !! lC' = Some (Arr2 (length hv) (grad_C k pv hv)) ∧
         heap w' !! lb1 = Some (Arr1 (grad_b1 func Hn Cm k pv zv)) ∧
         heap w' !! lb2 = Some (Arr1 (grad_b2 k pv))).
Proof.
  intros Hx Hf HZ HH Hm HC LC Hmg SC Sz Hy Hk Hfunc.
  destruct (lookup_lt_is_Some_2 pv k Hk) as [a Ha].
  unfold backprop.
  step np_map_spec; [lk|]. intros dU w1 (X1 & F1 & L1).
  step arr_getitem_spec; [lk|by rewrite length_map| |].
  { rewrite list_lookup_fmap, Ha. done. }
  intros ? ? [-> ->].
  step arr_setitem_spec; [lk|by rewrite length_map|].
  intros _ w2 (K2 & I2 & L2).
  pose proof (ext_write_fresh _ _ _ _ X1 F1 K2 I2) as X2.
  rewrite (dU_grad_b2 _ _ _ Ha) in L2. clear X1 K2 I2 L1.
  step np_transpose_spec1; [lk|]. intros ? ? [-> ->].
  step np_outer_spec; [lk|lk|]. intros dC w3 (X3 & F3 & L3).
  step getitem_spec; [lk|done|]. intros ? ? [-> ->].
  step np_transpose_spec2; [lk|]. intros Ct w4 (X4 & F4 & L4).
  step np_dot_t_spec; [lk|lk| |].
  { rewrite length_grad_b2. lia. }
  intros delta w5 (X5 & F5 & L5).
  step d_sigma_spec; [lk|done|]. intros dZZ w6 (X6 & F6 & L6).
  step np_zip_spec; [lk|lk| |].
  { rewrite gemv_t_length, length_map. lia. }
  intros db1 w7 (X7 & F7 & L7).
  step np_transpose_spec1; [lk|]. intros ? ? [-> ->].
  step np_outer_spec; [lk|lk|]. intros dW w8 (X8 & F8 & L8).
  change (zip_with fmul (gemv_t Hn Cm (grad_b2 k pv))
            (map (activate_derivative func) zv))
    with (grad_b1 func Hn Cm k pv zv) in *.
  assert (X : ext w w8) by xt.
  assert (LdU : heap w8 !! dU = Some (Arr1 (grad_b2 k pv))) by lk.
  assert (LdC : heap w8 !! dC = Some (Arr2 (length hv) (grad_C k pv hv))) by lk.
  assert (Ldb1 : heap w8 !! db1 = Some (Arr1 (grad_b1 func Hn Cm k pv zv))) by lk.
  assert (Lmg : heap w8 !! mg = Some (Dict gg)) by lk.
  assert (FdU : fresh w dU) by done.
  assert (FdC : fresh w dC) by fr.
  assert (Fdb1 : fresh w db1) by fr.
  assert (FdW : fresh w dW) by fr.
  clear X2 X3 X4 X5 X6 X7 X8 F1 F3 F4 F5 F6 F7 F8 L2 L3 L4 L5 L6 L7.
  step setitem_spec; [done|]. intros _ w9 (K9 & I9 & L9).
  step setitem_spec; [done|]. intros _ w10 (K10 & I10 & L10).
  step setitem_spec; [done|]. intros _ w11 (K11 & I11 & L11).
  step setitem_spec; [done|]. intros _ w12 (K12 & I12 & L12).
  apply returns_ret. split; [done|].
  assert (Hcell : ∀ l o, heap w8 !! l = Some o → (∀ d, o ≠ Dict d) →
                         heap w12 !! l = Some o).
  { intros l o Hlo Hne.
    eapply (keeps_other mg); [exact K12|exact L11| |apply not_eq_sym, Hne].
    eapply (keeps_other mg); [exact K11|exact L10| |apply not_eq_sym, Hne].
    eapply (keeps_other mg); [exact K10|exact L9| |apply not_eq_sym, Hne].
    eapply (keeps_other mg); [exact K9|exact Lmg| |apply not_eq_sym, Hne].
    done. }
  split; [|split].
  - intros l o Hne Hlo. apply K12, K11, K10, K9; try done. by apply X.
  - destruct X as [_ IX].
    repeat (eapply same_io_trans; [eassumption|]). done.
  - exists dW, dC, db1, dU. repeat split; try done.
    all: by apply Hcell.
Qed.

(** ** One sample-step of the training loop *)

Lemma update_spec_vec m g mg gg k a u gl v LR w :
  heap w !! m = Some (Dict g) → g !! k = Some a →
  heap w !! a = Some (Arr1 u) →
  heap w !! mg = Some (Dict gg) → gg !! k = Some gl →
  heap w !! gl = Some (Arr1 v) → length u = length v →
  returns (update m mg LR k) w
    (λ _ w', ∃ s, fresh w s ∧
       heap w' !! m = Some (Dict (<[k := s]> g)) ∧
       heap w' !! s = Some (Arr1 (axpy_v LR u v)) ∧
       keeps (λ l, l ≠ m) w w' ∧ same_io w w').
Proof.
  intros Hm Hk Ha Hmg Hgk Hgl E. unfold update.
  step getitem_spec; [lk|done|]. intros ? ? [-> ->].
  step getitem_spec; [lk|done|]. intros ? ? [-> ->].
  step np_map_spec; [lk|]. intros t w1 (X1 & F1 & L1).
  step np_zip_spec; [lk|lk|by rewrite length_map|].
  intros s w2 (X2 & F2 & L2).
  eapply returns_mono; [eapply setitem_spec; lk|].
  intros _ w3 (K3 & I3 & L3). exists s.
  assert (X : ext w w2) by xt.
  split; [fr|]. split; [done|]. split; [|split].
  - eapply (keeps_other m); [exact K3|lk|exact L2|done].
  - intros l o Hne Hl. apply K3; [done|]. by apply X.
  - eapply same_io_trans; [apply X|done].
Qed.

Lemma update_spec_mat m g mg gg k a c U gl G LR w :
  heap w !! m = Some (Dict g) → g !! k = Some a →
  heap w !! a = Some (Arr2 c U) →
  heap w !! mg = Some (Dict gg) → gg !! k = Some gl →
  heap w !! gl = Some (Arr2 c G) → length U = length G →
  returns (update m mg LR k) w
    (λ _ w', ∃ s, fresh w s ∧
       heap w' !! m = Some (Dict (<[k := s]> g)) ∧
       heap w' !! s = Some (Arr2 c (axpy_m LR U G)) ∧
       keeps (λ l, l ≠ m) w w' ∧ same_io w w').
Proof.
  intros Hm Hk Ha Hmg Hgk Hgl E. unfold update.
  step getitem_spec; [lk|done|]. intros ? ? [-> ->].
  step getitem_spec; [lk|done|]. intros ? ? [-> ->].
  step np_map_spec2; [lk|]. intros t w1 (X1 & F1 & L1).
  step np_zip_spec2; [lk|lk|by rewrite length_map|].
  intros s w2 (X2 & F2 & L2).
  eapply returns_mono; [eapply setitem_spec; lk|].
  intros _ w3 (K3 & I3 & L3). exists s.
  assert (X : ext w w2) by xt.
  split; [fr|]. split; [done|]. split; [|split].
  - eapply (keeps_other m); [exact K3|lk|exact L2|done].
  - intros l o Hne Hl. apply K3; [done|]. by apply X.
  - eapply same_io_trans; [apply X|done].
Qed.

Lemma randint_spec a b w :
  (a ≤ b)%Z →
  returns (randint a b) w
    (λ r w', r = (a + rand w (draws w) `mod` (b - a + 1))%Z ∧
       heap w' = heap w ∧ rand w' = rand w ∧ draws w' = S (draws w) ∧
       gauss w' = gauss w ∧ gdraws w' = gdraws w ∧ out w' = out w).
Proof.
  intros Hab. unfold randint, returns. rewrite decide_False by lia.
  eexists _, _. split; [done|]. by repeat split.
Qed.

Lemma seq_getitem_nat {A} (l : list A) (k : nat) a :
  l !! k = Some a → seq_getitem l (Z.of_nat k) = Ok a.
Proof.
  intros Hk. unfold seq_getitem.
  rewrite py_index_nat by (by eapply lookup_lt_Some). by rewrite Hk.
Qed.

Lemma argmax_ok (v : list F) : v ≠ [] → ∃ r, argmax v = Ok r.
Proof. destruct v; [done|]. intros _. by eexists. Qed.

(** *** Shapes *)

Lemma length_vadd (u v : list F) :
  length (vadd u v) = Nat.min (length u) (length v).
Proof. unfold vadd. by rewrite length_zip_with. Qed.

Lemma length_fwd_z D Hn K B x :
  shaped D Hn K B → length (fwd_z B x) = Hn.
Proof.
  intros (SW & _ & _ & _ & Sb1 & _). unfold fwd_z.
  rewrite length_vadd, gemv_length. lia.
Qed.

Lemma length_fwd_h D Hn K B kind x :
  shaped D Hn K B → length (fwd_h kind B x) = Hn.
Proof. intros Sh. unfold fwd_h. rewrite length_map. by eapply length_fwd_z. Qed.

Lemma length_softmax (u : list F) : length (softmax u) = length u.
Proof. unfold softmax. by rewrite length_map. Qed.

Lemma length_fwd_p D Hn K B kind x :
  shaped D Hn K B → length (fwd_p kind B x) = K.
Proof.
  intros (_ & _ & SC & _ & _ & Sb2). unfold fwd_p.
  rewrite length_softmax, length_vadd, gemv_length. lia.
Qed.

Lemma length_grad_b1 kind Hn (C : list (list F)) y pv z :
  length z = Hn → length (grad_b1 kind Hn C y pv z) = Hn.
Proof.
  intros E. unfold grad_b1, vmul.
  rewrite length_zip_with, gemv_t_length, length_map. lia.
Qed.

Lemma length_outer (u v : list F) : length (outer u v) = length u.
Proof. unfold outer. by rewrite length_map. Qed.

Lemma Forall_outer (u v : list F) :
  Forall (λ r, length r = length v) (outer u v).
Proof.
  unfold outer. apply Forall_forall. intros r Hr.
  apply list_elem_of_fmap in Hr as (a & -> & _). by rewrite length_map.
Qed.

Lemma length_axpy_v LR (u g : list F) :
  length u = length g → length (axpy_v LR u g) = length u.
Proof. intros E. unfold axpy_v. rewrite length_zip_with, length_map. lia. Qed.

Lemma length_axpy_m LR (U G : list (list F)) :
  length U = length G → length (axpy_m LR U G) = length U.
Proof. intros E. unfold axpy_m. rewrite length_zip_with, length_map. lia. Qed.

Lemma Forall_axpy_m c LR (U G : list (list F)) :
  Forall (λ r, length r = c) U → Forall (λ r, length r = c) G →
  Forall (λ r, length r = c) (axpy_m LR U G).
Proof.
  unfold axpy_m. intros HU. revert G.
  induction HU as [|r U Hr HU IH]; intros G HG; [done|].
  destruct HG as [|s G Hs HG]; [done|]. simpl. constructor; [|by apply IH].
  rewrite length_zip_with, length_map. lia.
Qed.

Lemma shaped_sgd_step D Hn K B kind LR x y :
  shaped D Hn K B → length x = D →
  shaped D Hn K (sgd_step kind Hn LR B x y).
Proof.
  intros Sh Hx. pose proof Sh as (SW & SWr & SC & SCr & Sb1 & Sb2).
  pose proof (length_fwd_z _ _ _ _ x Sh) as Lz.
  pose proof (length_fwd_h _ _ _ _ kind x Sh) as Lh.
  pose proof (length_fwd_p _ _ _ _ kind x Sh) as Lp.
  unfold shaped, sgd_step, gradients; simpl.
  unfold grad_W, grad_C.
  assert (L1 : length (grad_b1 kind Hn (tC B) y (fwd_p kind B x) (fwd_z B x)) = Hn)
    by (by apply length_grad_b1).
  assert (L2 : length (grad_b2 y (fwd_p kind B x)) = K)
    by (by rewrite length_grad_b2).
  split; [|split; [|split; [|split; [|split]]]].
  - rewrite length_axpy_m; rewrite ?length_outer; lia.
  - apply Forall_axpy_m; [done|]. rewrite <- Hx. apply Forall_outer.
  - rewrite length_axpy_m; rewrite ?length_outer; lia.
  - apply Forall_axpy_m; [done|]. rewrite <- Lh. apply Forall_outer.
  - rewrite length_axpy_v; lia.
  - rewrite length_axpy_v; lia.
Qed.

Lemma advanced_io n evs w0 w w' :
  advanced n evs w0 w → same_io w w' → advanced n evs w0 w'.
Proof.
  unfold advanced, same_io. intros (?&?&?&?&?) (?&?&?&?&?).
  repeat split; congruence.
Qed.

Lemma advanced_trans n1 e1 n2 e2 w0 w1 w2 :
  advanced n1 e1 w0 w1 → advanced n2 e2 w1 w2 →
  advanced (n1 + n2) (e1 ++ e2) w0 w2.
Proof.
  unfold advanced. intros (?&?&?&?&?) (?&?&?&?&?).
  repeat split; try congruence; [lia|].
  rewrite app_assoc. congruence.
Qed.

Lemma holds_ext w w' m D Hn B :
  ext w w' → holds (heap w) m D Hn B → holds (heap w') m D Hn B.
Proof.
  intros X (g & lW & lC & lb1 & lb2 & Hm & ? & ? & ? & ? & ? & ? & ? & ?).
  exists g, lW, lC, lb1, lb2. repeat split; try done; lk.
Qed.

Lemma py_index_nonneg n (i : Z) :
  (0 ≤ i < Z.of_nat n)%Z → py_index n i = Some (Z.to_nat i).
Proof. intros Hi. unfold py_index. by rewrite decide_True. Qed.

Lemma train_sample_spec m mg gg D Hn K B p d LR n tc w :
  holds (heap w) m D Hn B → shaped D Hn K B → (0 < K)%nat →
  heap w !! mg = Some (Dict gg) → m ≠ mg →
  train_set_ok D K d → (0 < mnist.n_train d)%Z →
  supported (params.sigma p) →
  let j := drawn d (rand w) (draws w) in
  returns (train_sample m p d LR n (tc, mg)) w
    (λ r w', r.2 = mg ∧
       holds (heap w') m D Hn
         (sgd_step (params.sigma p) Hn LR B (nth j (mnist.x_train d) [])
            (Z.to_nat (nth j (mnist.y_train d) 0%Z))) ∧
       (∃ gg', heap w' !! mg = Some (Dict gg')) ∧
       keeps (λ l, l ≠ m ∧ l ≠ mg) w w' ∧
       advanced 1 [] w w').
Proof.
  intros HB Sh HK Hmg Hne (Tn & Ty & Tx & Tl) HN Hf j.
  pose proof Sh as (SW & SWr & SC & SCr & Sb1 & Sb2).
  unfold train_sample. cbn [fst snd].
  step randint_spec; [lia|].
  intros n_random w1 (-> & Hh & Hr & Hd & Hg & Hgd & Ho).
  assert (Hj : (0 + rand w (draws w) `mod` (mnist.n_train d - 1 - 0 + 1))%Z
               = Z.of_nat j).
  { unfold j, drawn. rewrite Z2Nat.id.
    - rewrite Z.add_0_l. f_equal. lia.
    - apply Z.mod_pos_bound. lia. }
  rewrite Hj. clear Hj.
  assert (Hjlt : (j < length (mnist.x_train d))%nat).
  { unfold j, drawn.
    pose proof (Z.mod_pos_bound (rand w (draws w)) (mnist.n_train d) HN). lia. }
  destruct (lookup_lt_is_Some_2 (mnist.x_train d) j Hjlt) as [xv Hxv].
  destruct (lookup_lt_is_Some_2 (mnist.y_train d) j) as [y Hy]; [lia|].
  rewrite !nth_lookup, Hxv, Hy. cbn [default from_option].
  pose proof (Forall_lookup_1 _ _ _ _ Tx Hxv) as Lx. cbv beta in Lx.
  pose proof (Forall_lookup_1 _ _ _ _ Tl Hy) as Ly. cbv beta in Ly.
  apply returns_bind. eapply returns_lift; [by apply seq_getitem_nat|].
  apply returns_bind. eapply returns_lift; [by apply seq_getitem_nat|].
  assert (A1 : advanced 1 [] w w1).
  { unfold advanced. rewrite app_nil_r. repeat split; try done. lia. }
  assert (K1 : keeps (λ l, l ≠ m ∧ l ≠ mg) w w1).
  { intros l o _ Hl. by rewrite Hh. }
  rewrite <- Hh in HB, Hmg. clear Hh Hr Hd Hg Hgd Ho.
  step alloc_spec. intros x w2 (X2 & F2 & L2).
  apply (holds_ext _ _ _ _ _ _ X2) in HB. bring X2.
  step forward_spec; [done|done|done|done|done|].
  intros [[Z_ Hc] f] w3 (X3 & _ & _ & _ & LZ & LH & Lf). cbn [fst snd] in *.
  apply (holds_ext _ _ _ _ _ _ X3) in HB. bring X3.
  pose proof (length_fwd_z _ _ _ _ xv Sh) as Lz.
  pose proof (length_fwd_p _ _ _ _ (params.sigma p) xv Sh) as Lp.
  destruct (argmax_ok (fwd_p (params.sigma p) B xv)) as [pred Hpred].
  { intros E. rewrite E in Lp. simpl in Lp. lia. }
  step np_argmax_spec; [done|done|]. intros ? ? [-> ->].
  destruct HB as (g & lW & lC & lb1 & lb2 & Hm & HgW & HgC & Hgb1 & Hgb2 &
                  LW & LC & Lb1 & Lb2).
  step backprop_spec; [done|done|done|done|done|done|done|done| | | | |done|].
  { lia. } { done. } { apply py_index_nonneg. lia. } { lia. }
  intros ? w4 (-> & K4 & I4 & gW & gC & gb1 & gb2 & _ & _ & _ & _ &
               Lmg & LgW & LgC & Lgb1 & Lgb2).
  apply K4 in Hm; [|done]. carry K4 Hmg. clear Hmg.
  set (G := gradients (params.sigma p) Hn (tC B) (Z.to_nat y)
              (fwd_p (params.sigma p) B xv) (fwd_z B xv)
              (fwd_h (params.sigma p) B xv) xv).
  change (grad_W _ _ _ _ _ _ _) with (tW G) in LgW.
  change (grad_C _ _ _) with (tC G) in LgC.
  change (grad_b1 _ _ _ _ _ _) with (tb1 G) in Lgb1.
  change (grad_b2 _ _) with (tb2 G) in Lgb2.
  pose proof (length_fwd_h _ _ _ _ (params.sigma p) xv Sh) as Lh.
  rewrite Lx in LgW. rewrite Lh in LgC.
  assert (SG : length (tW G) = Hn ∧ length (tC G) = K ∧
               length (tb1 G) = Hn ∧ length (tb2 G) = K).
  { unfold G, gradients, grad_W, grad_C; simpl.
    rewrite !length_outer, length_grad_b1, length_grad_b2 by done. done. }
  destruct SG as (SG1 & SG2 & SG3 & SG4).
  step update_spec_mat; [done|done|done|done|by simplify_map_eq|done|lia|].
  intros _ w5 (s1 & _ & Hm5 & Ls1 & K5 & I5).
  apply K5 in Lmg; [|done]. carry K5 Hm. clear Hm.
  step update_spec_mat; [done|by simplify_map_eq|done|done|by simplify_map_eq|done|lia|].
  intros _ w6 (s2 & _ & Hm6 & Ls2 & K6 & I6).
  apply K6 in Lmg; [|done]. carry K6 Hm5. clear Hm5.
  step update_spec_vec; [done|by simplify_map_eq|done|done|by simplify_map_eq|done|lia|].
  intros _ w7 (s3 & _ & Hm7 & Ls3 & K7 & I7).
  apply K7 in Lmg; [|done]. carry K7 Hm6. clear Hm6.
  step update_spec_vec; [done|by simplify_map_eq|done|done|by simplify_map_eq|done|lia|].
  intros _ w8 (s4 & _ & Hm8 & Ls4 & K8 & I8).
  apply K8 in Lmg; [|done]. carry K8 Hm7. clear Hm7.
  apply returns_ret. cbn [fst snd].
  split; [done|]. split; [|split; [by eexists|split]].
  - eexists _, s1, s2, s3, s4. unfold sgd_step. fold G. simpl.
    split; [exact Hm8|]. repeat split; try done; by simplify_map_eq.
  - intros l o [Hl1 Hl2] Hl.
    apply K8, K7, K6, K5, K4; try done. apply X3, X2; try done.
    by apply K1.
  - eapply advanced_io; [exact A1|].
    eapply same_io_trans; [apply X2|].
    eapply same_io_trans; [apply X3|].
    repeat (eapply same_io_trans; [eassumption|]). apply same_io_refl.
Qed.

End steps.

Section loops.
Context {F : Type} {fl : Float F} {kn : Kernels F}.
Implicit Types w : world F.
Implicit Types B : bundle F.

(** ** The training loop *)

Lemma train_samples_spec m mg D Hn K (p : params.t F) (d : mnist.t F) LR
    (l : list Z) :
  (0 < K)%nat → m ≠ mg →
  train_set_ok D K d → (0 < mnist.n_train d)%Z →
  supported (params.sigma p) →
  ∀ B tc gg w,
    holds (heap w) m D Hn B → shaped D Hn K B →
    heap w !! mg = Some (Dict gg) →
    returns (for_loop l (train_sample m p d LR) (tc, mg)) w
      (λ r w', r.2 = mg ∧
         holds (heap w') m D Hn
           (sgd_steps (params.sigma p) Hn LR d (rand w) (draws w) (length l) B) ∧
         shaped D Hn K
           (sgd_steps (params.sigma p) Hn LR d (rand w) (draws w) (length l) B) ∧
         (∃ gg', heap w' !! mg = Some (Dict gg')) ∧
         keeps (λ l, l ≠ m ∧ l ≠ mg) w w' ∧
         advanced (length l) [] w w').
Proof.
  intros HK Hne HT HN Hf.
  induction l as [|n l IH]; intros B tc gg w HB Sh Hmg.
  - apply returns_ret. simpl. split; [done|]. split; [done|]. split; [done|].
    split; [by eexists|]. split; [apply keeps_refl|].
    unfold advanced. rewrite app_nil_r, Nat.add_0_r. done.
  - simpl for_loop.
    step train_sample_spec; [done|done|done|done|done|done|done|done|].
    intros [tc' mg'] w1 (E & HB1 & [gg1 Hmg1] & K1 & A1). simpl in E. subst mg'.
    set (j := drawn d (rand w) (draws w)) in *.
    assert (Lx : length (nth j (mnist.x_train d) []) = D).
    { destruct HT as (Tn & Ty & Tx & Tl).
      assert (Hjlt : (j < length (mnist.x_train d))%nat).
      { unfold j, drawn.
        pose proof (Z.mod_pos_bound (rand w (draws w)) (mnist.n_train d) HN).
        lia. }
      destruct (lookup_lt_is_Some_2 _ _ Hjlt) as [xv Hxv].
      rewrite nth_lookup, Hxv. simpl.
      apply (Forall_lookup_1 _ _ _ _ Tx Hxv). }
    pose proof (shaped_sgd_step _ _ _ _ (params.sigma p) LR _
                  (Z.to_nat (nth j (mnist.y_train d) 0%Z)) Sh Lx) as S1.
    eapply returns_mono; [eapply (IH _ tc' gg1 w1 HB1 S1 Hmg1)|].
    intros r w2 (Er & HB2 & S2 & Hmg2 & K2 & A2).
    destruct A1 as (Ar & Ad & A1').
    rewrite Ar, Ad, Nat.add_1_r in HB2, S2.
    simpl sgd_steps. fold j.
    split; [done|]. split; [done|]. split; [done|]. split; [done|]. split.
    + intros l' o Hl' Hl. apply K2; [done|]. by apply K1.
    + exact (advanced_trans 1 [] (length l) [] w w1 w2
               (conj Ar (conj Ad A1')) A2).
Qed.

Lemma lr_schedule_spec (p : params.t F) epochs LR w :
  params.interval p ≠ 0%Z →
  returns (lr_schedule p epochs LR) w (λ r w', r = lr_next p epochs LR ∧ w' = w).
Proof.
  intros Hi. unfold lr_schedule, lr_next.
  destruct (decide (0 < epochs)%Z) as [H0|H0].
  - rewrite decide_False by done.
    destruct (decide (epochs `mod` params.interval p = 0)%Z) as [Hm|Hm].
    + rewrite decide_True by done. by apply returns_ret.
    + rewrite decide_False by tauto. by apply returns_ret.
  - rewrite decide_False by tauto. by apply returns_ret.
Qed.

Lemma length_py_range n : length (py_range n) = Z.to_nat n.
Proof. unfold py_range. by rewrite length_map, length_seq. Qed.

Lemma train_epoch_spec m mg D Hn K (p : params.t F) (d : mnist.t F) epochs LR
    B gg w :
  (0 < K)%nat → m ≠ mg → train_set_ok D K d → (0 < mnist.n_train d)%Z →
  supported (params.sigma p) → params.interval p ≠ 0%Z →
  holds (heap w) m D Hn B → shaped D Hn K B →
  heap w !! mg = Some (Dict gg) →
  let N1 := Z.to_nat (mnist.n_train d) in
  let LR' := lr_next p epochs LR in
  let B' := sgd_steps (params.sigma p) Hn LR' d (rand w) (draws w) N1 B in
  returns (train_epoch m p d epochs (LR, mg)) w
    (λ r w', r = (LR', mg) ∧ holds (heap w') m D Hn B' ∧ shaped D Hn K B' ∧
       (∃ gg', heap w' !! mg = Some (Dict gg')) ∧
       keeps (λ l, l ≠ m ∧ l ≠ mg) w w' ∧
       ∃ acc, advanced N1 [EpochReport epochs acc] w w').
Proof.
  intros HK Hne HT HN Hf Hi HB Sh Hmg N1 LR' B'.
  unfold train_epoch. cbn [fst snd].
  step lr_schedule_spec; [done|]. intros ? ? [-> ->]. fold LR'.
  step train_samples_spec; [done|done|done|done|done|done|done|done|].
  rewrite length_py_range. fold N1. fold B'.
  intros [tc mg'] w1 (E & HB1 & S1 & Hmg1 & K1 & A1). simpl in E. subst mg'.
  cbn [fst snd]. unfold py_div_float. rewrite decide_False by lia.
  apply returns_bind, returns_ret. apply returns_bind.
  unfold returns, emit. eexists tt, _. split; [done|].
  apply returns_ret. split; [done|]. split; [done|]. split; [done|].
  split; [done|]. split; [done|].
  eexists. destruct A1 as (?&?&?&?&A1). unfold advanced; simpl.
  rewrite A1, app_nil_r. done.
Qed.

Lemma train_epochs_spec m mg D Hn K (p : params.t F) (d : mnist.t F) :
  (0 < K)%nat → m ≠ mg → train_set_ok D K d → (0 < mnist.n_train d)%Z →
  supported (params.sigma p) → params.interval p ≠ 0%Z →
  let N1 := Z.to_nat (mnist.n_train d) in
  ∀ n e LR B gg w,
    holds (heap w) m D Hn B → shaped D Hn K B →
    heap w !! mg = Some (Dict gg) →
    let B' := sgd_epochs (params.sigma p) Hn p d (rand w) (draws w) e n LR B in
    returns (for_loop (map Z.of_nat (seq e n)) (train_epoch m p d) (LR, mg)) w
      (λ r w', r.2 = mg ∧ holds (heap w') m D Hn B' ∧ shaped D Hn K B' ∧
         (∃ gg', heap w' !! mg = Some (Dict gg')) ∧
         keeps (λ l, l ≠ m ∧ l ≠ mg) w w' ∧
         ∃ evs, epoch_reports (map Z.of_nat (seq e n)) evs ∧
                advanced (n * N1) evs w w').
Proof.
  intros HK Hne HT HN Hf Hi N1.
  induction n as [|n IH]; intros e LR B gg w HB Sh Hmg B'.
  - apply returns_ret. simpl. split; [done|]. split; [done|]. split; [done|].
    split; [by eexists|]. split; [apply keeps_refl|].
    exists []. split; [constructor|].
    unfold advanced. rewrite app_nil_r, Nat.add_0_r. done.
  - simpl seq. simpl map. simpl for_loop.
    step train_epoch_spec; [done|done|done|done|done|done|done|done|done|].
    fold N1.
    intros r w1 (-> & HB1 & S1 & [gg1 Hmg1] & K1 & acc & A1).
    eapply returns_mono; [eapply (IH (S e) _ _ gg1 w1 HB1 S1 Hmg1)|].
    intros r w2 (Er & HB2 & S2 & Hmg2 & K2 & evs & Hevs & A2).
    pose proof A1 as (Ar & Ad & _).
    rewrite Ar, Ad in HB2, S2.
    split; [done|]. split; [done|]. split; [done|]. split; [done|]. split.
    + intros l' o Hl' Hl. apply K2; [done|]. by apply K1.
    + exists (EpochReport (Z.of_nat e) acc :: evs). split.
      * constructor; [by eexists|done].
      * exact (advanced_trans N1 [_] (n * N1) evs w w1 w2 A1 A2).
Qed.

Lemma nn_train_spec m mg gg D Hn K B (p : params.t F) (d : mnist.t F) w :
  holds (heap w) m D Hn B → shaped D Hn K B → (0 < K)%nat →
  heap w !! mg = Some (Dict gg) → m ≠ mg →
  train_set_ok D K d → (0 < mnist.n_train d)%Z →
  supported (params.sigma p) → params.interval p ≠ 0%Z →
  let E := Z.to_nat (params.n_epochs p) in
  let N1 := Z.to_nat (mnist.n_train d) in
  let B' := sgd_epochs (params.sigma p) Hn p d (rand w) (draws w) 0 E
              (params.lr p) B in
  returns (nn_train m mg p d) w
    (λ r w', r = m ∧ holds (heap w') m D Hn B' ∧ shaped D Hn K B' ∧
       keeps (λ l, l ≠ m ∧ l ≠ mg) w w' ∧
       ∃ evs, epoch_reports (py_range (params.n_epochs p)) evs ∧
              advanced (E * N1) evs w w').
Proof.
  intros HB Sh HK Hmg Hne HT HN Hf Hi E N1 B'. unfold nn_train.
  apply returns_bind. unfold py_range.
  eapply returns_mono;
    [eapply (train_epochs_spec m mg D Hn K p d HK Hne HT HN Hf Hi E 0%nat);
     eassumption|].
  intros r w' (Er & HB' & S' & _ & K' & evs & Hevs & A').
  apply returns_ret. split; [done|]. split; [done|]. split; [done|].
  split; [done|]. by exists evs.
Qed.

(** ** The evaluation loop *)

Lemma holds_keeps w w' m D Hn B :
  keeps (λ _, True) w w' → holds (heap w) m D Hn B → holds (heap w') m D Hn B.
Proof.
  intros X (g & lW & lC & lb1 & lb2 & Hm & ? & ? & ? & ? & ? & ? & ? & ?).
  exists g, lW, lC, lb1, lb2. repeat split; try done; by apply X.
Qed.

Lemma plot_predict_spec x (v : list F) y pred w :
  heap w !! x = Some (Arr1 v) → length v = 784%nat →
  returns (plot_predict x y pred) w
    (λ _ w', heap w' = heap w ∧ advanced 0 [Plot v y pred] w w').
Proof.
  intros Hx Hv. unfold plot_predict. rd. rewrite decide_True by done.
  unfold returns, emit. eexists tt, _. split; [done|]. split; [done|].
  unfold advanced. simpl. rewrite Nat.add_0_r. done.
Qed.

Lemma test_sample_spec m Hn K B (p : params.t F) (d : mnist.t F) k (i : nat)
    tc cc cw w :
  holds (heap w) m 784 Hn B → shaped 784 Hn K B → (0 < K)%nat →
  test_set_ok 784 d → (i < length (mnist.x_test d))%nat →
  supported (params.sigma p) →
  let ev := outcome (params.sigma p) B d i in
  returns (test_sample m p d k (Z.of_nat i) (tc, cc, cw)) w
    (λ r w',
       r = ((if decide (correct ev) then tc + 1 else tc)%Z,
            (if decide (correct ev ∧ (cc < k)%Z) then cc + 1 else cc)%Z,
            (if decide (¬ correct ev ∧ (cw < k)%Z) then cw + 1 else cw)%Z) ∧
       keeps (λ _, True) w w' ∧
       advanced 0 (shown k cc cw [ev]) w w').
Proof.
  intros HB Sh HK (Tn & Ty & Tx) Hi Hf ev.
  unfold test_sample. cbn [fst snd].
  destruct (lookup_lt_is_Some_2 (mnist.x_test d) i Hi) as [xv Hxv].
  destruct (lookup_lt_is_Some_2 (mnist.y_test d) i) as [y Hy]; [lia|].
  pose proof (Forall_lookup_1 _ _ _ _ Tx Hxv) as Lx. cbv beta in Lx.
  apply returns_bind. eapply returns_lift; [by apply seq_getitem_nat|].
  apply returns_bind. eapply returns_lift; [by apply seq_getitem_nat|].
  step alloc_spec. intros x w2 (X2 & F2 & L2).
  apply (holds_ext _ _ _ _ _ _ X2) in HB.
  step forward_spec; [done|done|done|done|done|].
  intros [[Z_ Hc] f] w3 (X3 & _ & _ & _ & LZ & LH & Lf). cbn [fst snd] in *.
  bring X3.
  pose proof (length_fwd_p _ _ _ _ (params.sigma p) xv Sh) as Lp.
  destruct (argmax_ok (fwd_p (params.sigma p) B xv)) as [pred Hpred].
  { intros E. rewrite E in Lp. simpl in Lp. lia. }
  step np_argmax_spec; [done|done|]. intros ? ? [-> ->].
  assert (Hev : ev = Plot xv y pred).
  { unfold ev, outcome, predict.
    rewrite !nth_lookup, Hxv, Hy. simpl. by rewrite Hpred. }
  assert (X : ext w w3) by xt.
  rewrite Hev. simpl correct. simpl shown.
  destruct (decide (pred = y)) as [Hcr|Hcr].
  - rewrite (decide_False (P := pred ≠ y ∧ _)) by tauto.
    rewrite (decide_False (P := ¬ pred = y ∧ _)) by tauto.
    destruct (decide (cc < k)%Z) as [Hcc|Hcc].
    + rewrite decide_True by done.
      apply returns_bind. step plot_predict_spec; [done|done|].
      intros _ w4 (Hh & A4). rr. cbn [fst snd].
      split; [done|]. split.
      * intros l o _ Hl. rewrite Hh. by apply X.
      * destruct X as [_ IX]. destruct A4 as (?&?&?&?&?).
        destruct IX as (?&?&?&?&?). unfold advanced.
        repeat split; congruence.
    + rewrite decide_False by tauto.
      rr. cbn [fst snd].
      split; [done|]. split; [apply X|].
      destruct X as [_ (?&?&?&?&?)]. unfold advanced.
      rewrite app_nil_r, Nat.add_0_r. done.
  - apply returns_bind, returns_ret.
    rewrite (decide_False (P := pred = y ∧ _)) by tauto. cbn [fst snd].
    destruct (decide (cw < k)%Z) as [Hcw|Hcw].
    + rewrite !decide_True by done.
      apply returns_bind. step plot_predict_spec; [done|done|].
      intros _ w4 (Hh & A4). rr.
      split; [done|]. split.
      * intros l o _ Hl. rewrite Hh. by apply X.
      * destruct X as [_ IX]. destruct A4 as (?&?&?&?&?).
        destruct IX as (?&?&?&?&?). unfold advanced.
        repeat split; congruence.
    + rewrite !decide_False by tauto.
      rr.
      split; [done|]. split; [apply X|].
      destruct X as [_ (?&?&?&?&?)]. unfold advanced.
      rewrite app_nil_r, Nat.add_0_r. done.
Qed.

Lemma shown_cons k cc cw (ev : event F) t :
  shown k cc cw (ev :: t) =
  shown k cc cw [ev] ++
  shown k (if decide (correct ev ∧ (cc < k)%Z) then cc + 1 else cc)%Z
          (if decide (¬ correct ev ∧ (cw < k)%Z) then cw + 1 else cw)%Z t.
Proof.
  simpl. destruct (decide (correct ev)) as [Hc|Hc].
  - rewrite (decide_False (P := ¬ correct ev ∧ _)) by tauto.
    destruct (decide (cc < k)%Z).
    + by rewrite decide_True.
    + by rewrite decide_False by tauto.
  - rewrite (decide_False (P := correct ev ∧ _)) by tauto.
    destruct (decide (cw < k)%Z).
    + by rewrite decide_True.
    + by rewrite decide_False by tauto.
Qed.

Lemma test_samples_spec m Hn K B (p : params.t F) (d : mnist.t F) k :
  shaped 784 Hn K B → (0 < K)%nat → test_set_ok 784 d →
  supported (params.sigma p) →
  ∀ n i tc cc cw w,
    (i + n ≤ length (mnist.x_test d))%nat →
    holds (heap w) m 784 Hn B →
    let evs := map (outcome (params.sigma p) B d) (seq i n) in
    returns (for_loop (map Z.of_nat (seq i n)) (test_sample m p d k)
               (tc, cc, cw)) w
      (λ r w',
         r.1.1 = (tc + Z.of_nat (length (filter correct evs)))%Z ∧
         keeps (λ _, True) w w' ∧
         advanced 0 (shown k cc cw evs) w w').
Proof.
  intros Sh HK HT Hf.
  induction n as [|n IH]; intros i tc cc cw w Hin HB evs.
  - apply returns_ret. simpl. split; [lia|]. split; [apply keeps_refl|].
    unfold advanced. rewrite app_nil_r, Nat.add_0_r. done.
  - simpl seq. simpl map. simpl for_loop.
    step test_sample_spec; [done|done|done|done|lia|done|].
    intros r w1 (-> & K1 & A1).
    eapply returns_mono; [eapply (IH (S i)); [lia|by eapply holds_keeps]|].
    intros r w2 (Er & K2 & A2). cbv zeta in Er.
    set (ev := outcome (params.sigma p) B d i) in *.
    set (t := map (outcome (params.sigma p) B d) (seq (S i) n)) in *.
    assert (Hevs : evs = ev :: t) by done.
    rewrite Hevs. split; [|split].
    + rewrite Er, filter_cons. cbn [fst snd].
      destruct (decide (correct ev)); simpl; lia.
    + intros l o _ Hl. apply K2; [done|]. by apply K1.
    + rewrite shown_cons.
      exact (advanced_trans 0 _ 0 _ w w1 w2 A1 A2).
Qed.

Lemma filter_shown_correct k cc cw (evs : list (event F)) :
  filter correct (shown k cc cw evs) =
  take (Z.to_nat (k - cc)) (filter correct evs).
Proof.
  revert cc cw. induction evs as [|ev t IH]; intros cc cw.
  - simpl shown. by rewrite !filter_nil, take_nil.
  - simpl shown. rewrite (filter_cons _ ev t).
    destruct (decide (correct ev)) as [Hc|Hc].
    + destruct (decide (cc < k)%Z) as [Hcc|Hcc].
      * rewrite filter_cons, decide_True, IH by done.
        replace (Z.to_nat (k - cc)) with (S (Z.to_nat (k - (cc + 1)))) by lia.
        done.
      * rewrite IH. replace (Z.to_nat (k - cc)) with 0%nat by lia. done.
    + destruct (decide (cw < k)%Z) as [Hcw|Hcw].
      * rewrite filter_cons, decide_False, IH by done. done.
      * by rewrite IH.
Qed.

Lemma filter_shown_wrong k cc cw (evs : list (event F)) :
  filter (λ ev, ¬ correct ev) (shown k cc cw evs) =
  take (Z.to_nat (k - cw)) (filter (λ ev, ¬ correct ev) evs).
Proof.
  revert cc cw. induction evs as [|ev t IH]; intros cc cw.
  - simpl shown. by rewrite !filter_nil, take_nil.
  - simpl shown. rewrite (filter_cons _ ev t).
    destruct (decide (correct ev)) as [Hc|Hc].
    + rewrite (decide_False (P := ¬ correct ev)) by tauto.
      destruct (decide (cc < k)%Z) as [Hcc|Hcc].
      * rewrite filter_cons, decide_False, IH by tauto. done.
      * by rewrite IH.
    + rewrite (decide_True (P := ¬ correct ev)) by done.
      destruct (decide (cw < k)%Z) as [Hcw|Hcw].
      * rewrite filter_cons, decide_True, IH by done.
        replace (Z.to_nat (k - cw)) with (S (Z.to_nat (k - (cw + 1)))) by lia.
        done.
      * rewrite IH. replace (Z.to_nat (k - cw)) with 0%nat by lia. done.
Qed.

Lemma shown_sublist k cc cw (evs : list (event F)) :
  shown k cc cw evs `sublist_of` evs.
Proof.
  revert cc cw. induction evs as [|ev t IH]; intros cc cw; [done|].
  simpl. repeat case_decide;
    first [by apply sublist_skip | by apply sublist_cons].
Qed.

Lemma nn_test_spec m Hn K B (p : params.t F) (d : mnist.t F) w :
  holds (heap w) m 784 Hn B → shaped 784 Hn K B → (0 < K)%nat →
  test_set_ok 784 d → (0 < mnist.n_test d)%Z →
  supported (params.sigma p) →
  let evs := outcomes (params.sigma p) B d in
  let plots := shown 5 0 0 evs in
  let acc := IZR (Z.of_nat (length (filter correct evs))) / IZR (mnist.n_test d) in
  returns (nn_test m p d) w
    (λ _ w', keeps (λ _, True) w w' ∧
             advanced 0 (plots ++ [TestReport acc]) w w').
Proof.
  intros HB Sh HK HT HN Hf evs plots acc. unfold nn_test.
  apply returns_bind. unfold py_range.
  eapply returns_mono;
    [eapply (test_samples_spec m Hn K B p d 5 Sh HK HT Hf
               (Z.to_nat (mnist.n_test d)) 0%nat); [|done]|].
  { destruct HT as (Tn & _). lia. }
  intros [[tc cc] cw] w1 (Er & K1 & A1). cbn [fst snd] in *.
  unfold py_div_float. rewrite decide_False by lia.
  apply returns_bind, returns_ret.
  unfold returns, emit. eexists tt, _. split; [done|]. split; [done|].
  fold (outcomes (params.sigma p) B d) in A1, Er. fold evs in A1, Er.
  destruct A1 as (?&?&?&?&A1). unfold advanced; simpl.
  rewrite A1, Er, Z.add_0_l, app_assoc. done.
Qed.

(** ** The learning-rate schedule *)

Lemma div_succ (n i : Z) :
  (0 ≤ n)%Z → (0 < i)%Z →
  ((n + 1) `div` i =
   n `div` i + (if decide ((n + 1) `mod` i = 0) then 1 else 0))%Z.
Proof.
  intros Hn Hi.
  pose proof (Z.div_mod n i ltac:(lia)) as E.
  pose proof (Z.mod_pos_bound n i Hi) as Hr.
  destruct (decide (n `mod` i + 1 = i)%Z) as [Heq|Hne].
  - assert (Hm : ((n + 1) `mod` i = 0)%Z).
    { symmetry. apply (Z.mod_unique _ _ (n `div` i + 1)); lia. }
    rewrite decide_True by done.
    symmetry. apply (Z.div_unique _ _ _ 0); lia.
  - assert (Hm : ((n + 1) `mod` i = n `mod` i + 1)%Z).
    { symmetry. apply (Z.mod_unique _ _ (n `div` i)); lia. }
    rewrite decide_False by lia.
    symmetry. apply (Z.div_unique _ _ _ (n `mod` i + 1)); lia.
Qed.

Lemma lr_schedule_run (p : params.t F) epochs LR w :
  params.interval p ≠ 0%Z →
  lr_schedule p epochs LR w = Ok (lr_next p epochs LR, w).
Proof.
  intros Hi. destruct (lr_schedule_spec p epochs LR w Hi) as (r & w' & E & -> & ->).
  done.
Qed.

Lemma staircase_0 (p : params.t F) : staircase p 0 = params.lr p.
Proof. unfold staircase. by rewrite Zdiv_0_l. Qed.

(** from one epoch to the next the rate of the specification moves as the
    statement at the head of the epoch moves [LR] *)
Lemma staircase_succ (p : params.t F) (e : Z) :
  (0 < params.interval p)%Z → (0 ≤ e)%Z →
  staircase p (e + 1) = lr_next p (e + 1) (staircase p e).
Proof.
  intros Hi He. unfold staircase, lr_next.
  rewrite (div_succ e) by done.
  assert (H0 : (0 ≤ e `div` params.interval p)%Z) by (apply Z.div_pos; lia).
  destruct (decide ((e + 1) `mod` params.interval p = 0)%Z) as [Hm|Hm].
  - rewrite decide_True by (split; [lia|done]).
    replace (Z.to_nat (e `div` params.interval p + 1))
      with (S (Z.to_nat (e `div` params.interval p))) by lia.
    done.
  - rewrite decide_False by tauto. by rewrite Z.add_0_r.
Qed.

Lemma lr_next_0 (p : params.t F) LR : lr_next p 0 LR = LR.
Proof. unfold lr_next. by rewrite decide_False by lia. Qed.

(** an epoch of the code, entered with a rate that its first statement turns
    into [rate epochs], is the epoch of the specification *)
Lemma train_epoch_at_rate m (p : params.t F) (d : mnist.t F) rate epochs LR
    mg w :
  params.interval p ≠ 0%Z → lr_next p epochs LR = rate epochs →
  train_epoch m p d epochs (LR, mg) w =
  match epoch_at_rate m p d rate epochs mg w with
  | Ok (mg', w') => Ok ((rate epochs, mg'), w')
  | Raise x => Raise x
  end.
Proof.
  intros Hi E. unfold train_epoch, epoch_at_rate, bind. cbn [fst snd].
  rewrite lr_schedule_run, E by done.
  destruct (for_loop _ _ _ w) as [[r w1]|x]; [|done].
  destruct (py_div_float _ _ w1) as [[acc w2]|x]; [|done].
  done.
Qed.

Lemma for_loop_cons {A S} (a : A) (t : list A) (body : A → S → M F S) s w :
  for_loop (a :: t) body s w =
  match body a s w with
  | Ok (s', w') => for_loop t body s' w'
  | Raise x => Raise x
  end.
Proof. done. Qed.

Lemma train_epochs_at_rates m (p : params.t F) (d : mnist.t F) :
  (0 < params.interval p)%Z →
  ∀ n e LR mg w,
    lr_next p (Z.of_nat e) LR = staircase p (Z.of_nat e) →
    match for_loop (map Z.of_nat (seq e n)) (train_epoch m p d) (LR, mg) w,
          for_loop (map Z.of_nat (seq e n))
            (epoch_at_rate m p d (staircase p)) mg w with
    | Ok (st, w1), Ok (mg2, w2) => st.2 = mg2 ∧ w1 = w2
    | Raise x1, Raise x2 => x1 = x2
    | _, _ => False
    end.
Proof.
  intros Hi. induction n as [|n IH]; intros e LR mg w E; [done|].
  simpl seq. simpl map. rewrite !for_loop_cons.
  rewrite (train_epoch_at_rate m p d (staircase p)) by (done || lia).
  destruct (epoch_at_rate m p d (staircase p) (Z.of_nat e) mg w)
    as [[mg' w']|x]; [|done].
  apply IH. rewrite Nat2Z.inj_succ, <- Z.add_1_r.
  symmetry. apply staircase_succ; lia.
Qed.

Lemma nn_train_at_rates m mg (p : params.t F) (d : mnist.t F) w :
  (0 < params.interval p)%Z →
  nn_train m mg p d w = train_at_rates m mg p d (staircase p) w.
Proof.
  intros Hi. unfold nn_train, train_at_rates, bind, py_range.
  pose proof (train_epochs_at_rates m p d Hi (Z.to_nat (params.n_epochs p))
                0%nat (params.lr p) mg w) as E.
  rewrite lr_next_0, staircase_0 in E. specialize (E eq_refl).
  destruct (for_loop _ (train_epoch m p d) _ w) as [[st w1]|x1],
    (for_loop _ (epoch_at_rate m p d (staircase p)) mg w) as [[mg2 w2]|x2];
    try done.
  - by destruct E as [_ ->].
  - by subst.
Qed.

End loops.

(** ** Where [sys.exit] can be reached *)

Section exits.
Context {F : Type}.

Lemma no_exit_ret {A} (a : A) : no_exit (F := F) (ret a).
Proof. by intros w msg. Qed.

Lemma no_exit_raise {A} e :
  (∀ msg, e ≠ SystemExit msg) → no_exit (F := F) (A := A) (raise e).
Proof. intros Hne w msg [= E]. by eapply Hne. Qed.

Lemma no_exit_bind {A B} (m : M F A) (k : A → M F B) :
  no_exit m → (∀ a, no_exit (k a)) → no_exit (bind m k).
Proof.
  intros Hm Hk w msg. unfold bind.
  destruct (m w) as [[a w']|e] eqn:E; [apply Hk|].
  intros [= ->]. by eapply Hm.
Qed.

Lemma no_exit_lift {A} (r : result A) :
  (∀ msg, r ≠ Raise (SystemExit msg)) → no_exit (F := F) (lift r).
Proof.
  intros Hne w msg. unfold lift. destruct r as [a|e]; [done|].
  intros [= ->]. by eapply Hne.
Qed.

Lemma no_exit_for_loop {A S} (l : list A) (body : A → S → M F S) s :
  (∀ a s', no_exit (body a s')) → no_exit (for_loop l body s).
Proof.
  intros Hb. revert s. induction l as [|a l IH]; intros s; simpl.
  - apply no_exit_ret.
  - apply no_exit_bind; [apply Hb|apply IH].
Qed.

Lemma no_exit_alloc (o : obj F) : no_exit (alloc o).
Proof. by intros w msg. Qed.

Lemma no_exit_deref l : no_exit (F := F) (deref l).
Proof. intros w msg. unfold deref. by destruct (heap w !! l). Qed.

Lemma no_exit_store l (o : obj F) : no_exit (store l o).
Proof. by intros w msg. Qed.

Lemma no_exit_randint a b : no_exit (F := F) (randint a b).
Proof. intros w msg. unfold randint. by case_decide. Qed.

Lemma no_exit_emit (e : event F) : no_exit (emit e).
Proof. by intros w msg. Qed.

Lemma no_exit_seq_getitem {A} (l : list A) i :
  no_exit (F := F) (lift (seq_getitem l i)).
Proof.
  apply no_exit_lift. intros msg. unfold seq_getitem.
  destruct (py_index _ _); [destruct (l !! _)|]; done.
Qed.

End exits.

(** structural steps; what is left are calls *)
Ltac ne_step :=
  first
    [ apply no_exit_ret
    | apply no_exit_raise; discriminate
    | apply no_exit_bind; [|intros ?]
    | apply no_exit_for_loop; intros ? ?
    | match goal with
      | |- no_exit (match ?x with _ => _ end) => destruct x
      | |- no_exit (if ?c then _ else _) => destruct c
      | |- no_exit (λ w, _) => intros ? ?; repeat case_decide; discriminate
      end ].

Create HintDb noexit.
#[global] Hint Resolve no_exit_alloc no_exit_deref no_exit_store
  no_exit_randint no_exit_emit no_exit_seq_getitem : noexit.

Ltac nx := repeat first [solve [auto with noexit] | ne_step].

Section exits_numpy.
Context {F : Type} {fl : Float F} {kn : Kernels F}.

Lemma no_exit_getitem d k : no_exit (F := F) (getitem d k).
Proof. unfold getitem. nx. Qed.

Lemma no_exit_setitem d k v : no_exit (F := F) (setitem d k v).
Proof. unfold setitem. nx. Qed.

Lemma no_exit_arr_getitem a i : no_exit (F := F) (arr_getitem a i).
Proof. unfold arr_getitem. nx. Qed.

Lemma no_exit_arr_setitem a i (r : F) : no_exit (arr_setitem a i r).
Proof. unfold arr_setitem. nx. Qed.

Lemma no_exit_np_map (f : F → F) a : no_exit (np_map f a).
Proof. unfold np_map. nx. Qed.

Lemma no_exit_zip1 (f : F → F → F) u v : no_exit (F := F) (lift (zip1 f u v)).
Proof.
  apply no_exit_lift. intros msg. unfold zip1.
  case_decide; [done|]. destruct u as [|? [|? ?]], v as [|? [|? ?]]; done.
Qed.

Lemma no_exit_np_zip (f : F → F → F) a b : no_exit (np_zip f a b).
Proof. unfold np_zip. pose proof no_exit_zip1. nx. Qed.

Lemma no_exit_np_sum a : no_exit (F := F) (np_sum a).
Proof. unfold np_sum. nx. Qed.

Lemma no_exit_np_dot a b : no_exit (F := F) (np_dot a b).
Proof. unfold np_dot. nx. Qed.

Lemma no_exit_np_transpose a : no_exit (F := F) (np_transpose a).
Proof. unfold np_transpose. nx. Qed.

Lemma no_exit_np_outer a b : no_exit (F := F) (np_outer a b).
Proof. unfold np_outer. nx. Qed.

Lemma no_exit_np_argmax a : no_exit (F := F) (np_argmax a).
Proof.
  unfold np_argmax. nx.
  apply no_exit_lift. intros msg. by destruct v.
Qed.

End exits_numpy.

#[global] Hint Resolve no_exit_getitem no_exit_setitem no_exit_arr_getitem
  no_exit_arr_setitem no_exit_np_map no_exit_np_zip no_exit_np_sum
  no_exit_np_dot no_exit_np_transpose no_exit_np_outer no_exit_np_argmax
  no_exit_zip1 : noexit.

Section exits_program.
Context {F : Type} {fl : Float F} {kn : Kernels F}.
Implicit Types w : world F.
Implicit Types B : bundle F.

Lemma no_exit_sigma z func : supported func → no_exit (F := F) (sigma z func).
Proof. intros [-> | ->]; unfold sigma; simpl; nx. Qed.

Lemma no_exit_d_sigma z func :
  supported func → no_exit (F := F) (d_sigma z func).
Proof. intros [-> | ->]; unfold d_sigma; simpl; nx. Qed.

Lemma no_exit_softmax_function z : no_exit (F := F) (softmax_function z).
Proof. unfold softmax_function. nx. Qed.

Lemma no_exit_forward x m func :
  supported func → no_exit (F := F) (forward x m func).
Proof.
  intros Hf. unfold forward.
  pose proof (λ z, no_exit_sigma z func Hf). pose proof no_exit_softmax_function.
  nx.
Qed.

Lemma no_exit_backprop x y f Z_ Hl m mg func :
  supported func → no_exit (F := F) (backprop x y f Z_ Hl m mg func).
Proof.
  intros Hf. unfold backprop. pose proof (λ z, no_exit_d_sigma z func Hf). nx.
Qed.

Lemma no_exit_plot_predict x y pred : no_exit (F := F) (plot_predict x y pred).
Proof. unfold plot_predict. nx. Qed.

Lemma no_exit_update m mg (LR : F) k : no_exit (update m mg LR k).
Proof. unfold update. nx. Qed.

Lemma no_exit_lr_schedule (p : params.t F) epochs LR :
  no_exit (lr_schedule p epochs LR).
Proof. unfold lr_schedule. nx. Qed.

Lemma no_exit_py_div_float k n : no_exit (F := F) (py_div_float k n).
Proof. unfold py_div_float. nx. Qed.

Lemma no_exit_nn_train m mg (p : params.t F) (d : mnist.t F) :
  supported (params.sigma p) → no_exit (nn_train m mg p d).
Proof.
  intros Hf. unfold nn_train, train_epoch, train_sample.
  pose proof (λ x m, no_exit_forward x m _ Hf).
  pose proof (λ x y f Z_ Hl m mg, no_exit_backprop x y f Z_ Hl m mg _ Hf).
  pose proof no_exit_update. pose proof no_exit_lr_schedule.
  pose proof no_exit_py_div_float.
  nx.
Qed.

Lemma no_exit_nn_test m (p : params.t F) (d : mnist.t F) :
  supported (params.sigma p) → no_exit (nn_test m p d).
Proof.
  intros Hf. unfold nn_test, test_sample.
  pose proof (λ x m, no_exit_forward x m _ Hf).
  pose proof no_exit_plot_predict. pose proof no_exit_py_div_float.
  nx.
Qed.

End exits_program.

(** ** An unsupported activation *)

Section unsupported.
Context {F : Type} {fl : Float F} {kn : Kernels F}.
Implicit Types w : world F.
Implicit Types B : bundle F.

Lemma raises_bind_l {A C} (m : M F A) (k : A → M F C) w e :
  m w = Raise e → bind m k w = Raise e.
Proof. intros E. unfold bind. by rewrite E. Qed.

Lemma raises_bind {A C} (m : M F A) (k : A → M F C) w e
    (Q : A → world F → Prop) :
  returns m w Q → (∀ a w', Q a w' → k a w' = Raise e) → bind m k w = Raise e.
Proof.
  intros (a & w' & E & HQ) Hk. unfold bind. rewrite E. by apply Hk.
Qed.

Lemma sigma_unsupported z func w :
  ¬ supported func →
  sigma z func w = Raise (SystemExit "Unsupported function type!").
Proof.
  intros Hf. unfold sigma, supported in *.
  rewrite !decide_False by tauto. done.
Qed.

Lemma d_sigma_unsupported z func w :
  ¬ supported func →
  d_sigma z func w = Raise (SystemExit "Unsupported function type!").
Proof.
  intros Hf. unfold d_sigma, supported in *.
  rewrite !decide_False by tauto. done.
Qed.

Lemma forward_unsupported x xv m D Hn K B func w :
  holds (heap w) m D Hn B → shaped D Hn K B →
  heap w !! x = Some (Arr1 xv) → length xv = D → ¬ supported func →
  forward x m func w = Raise (SystemExit "Unsupported function type!").
Proof.
  intros (g & lW & lC & lb1 & lb2 & Hm & HW & HC & Hb1 & Hb2 &
          LW & LC & Lb1 & Lb2) (SW & SWr & SC & SCr & Sb1 & Sb2) Hx Hlen Hf.
  unfold forward.
  eapply raises_bind; [eapply getitem_spec; [lk|done]|].
  intros ? ? [-> ->]. cbv beta.
  eapply raises_bind; [eapply np_dot_spec; [lk|lk|done]|].
  intros t w1 (X1 & F1 & L1). cbv beta.
  eapply raises_bind; [eapply getitem_spec; [lk|done]|].
  intros ? ? [-> ->]. cbv beta.
  eapply raises_bind;
    [eapply np_zip_spec; [lk|lk|by rewrite gemv_length; lia]|].
  intros Z_ w2 (X2 & F2 & L2). cbv beta.
  apply raises_bind_l. by apply sigma_unsupported.
Qed.

Lemma py_range_pos n : (0 < n)%Z → py_range n = 0%Z :: map Z.of_nat (seq 1 (Z.to_nat n - 1)).
Proof.
  intros Hn. unfold py_range.
  replace (Z.to_nat n) with (S (Z.to_nat n - 1)) at 1 by lia. done.
Qed.

Lemma nn_train_unsupported m mg D Hn K B (p : params.t F) (d : mnist.t F) w :
  holds (heap w) m D Hn B → shaped D Hn K B →
  train_set_ok D K d → (0 < mnist.n_train d)%Z → (0 < params.n_epochs p)%Z →
  ¬ supported (params.sigma p) →
  nn_train m mg p d w = Raise (SystemExit "Unsupported function type!").
Proof.
  intros HB Sh (Tn & Ty & Tx & Tl) HN HE Hf. unfold nn_train.
  apply raises_bind_l. rewrite py_range_pos by done. simpl for_loop.
  apply raises_bind_l. unfold train_epoch. cbn [fst snd].
  eapply (raises_bind _ _ _ _ (λ _ w', w' = w)).
  { unfold lr_schedule. rewrite decide_False by lia. by apply returns_ret. }
  intros LR ? ->. cbv beta.
  apply raises_bind_l. rewrite py_range_pos by done. simpl for_loop.
  apply raises_bind_l. unfold train_sample. cbn [fst snd].
  eapply raises_bind; [apply randint_spec; lia|].
  intros n_random w1 (-> & Hh & _). cbv beta.
  set (j := Z.to_nat (rand w (draws w) `mod` mnist.n_train d)).
  assert (Hj : (0 + rand w (draws w) `mod` (mnist.n_train d - 1 - 0 + 1))%Z
               = Z.of_nat j).
  { unfold j. rewrite Z2Nat.id.
    - rewrite Z.add_0_l. f_equal. lia.
    - apply Z.mod_pos_bound. lia. }
  rewrite Hj. clear Hj.
  assert (Hjlt : (j < length (mnist.x_train d))%nat).
  { unfold j.
    pose proof (Z.mod_pos_bound (rand w (draws w)) (mnist.n_train d) HN). lia. }
  destruct (lookup_lt_is_Some_2 (mnist.x_train d) j Hjlt) as [xv Hxv].
  destruct (lookup_lt_is_Some_2 (mnist.y_train d) j) as [y Hy]; [lia|].
  pose proof (Forall_lookup_1 _ _ _ _ Tx Hxv) as Lx. cbv beta in Lx.
  eapply (raises_bind _ _ _ _ (λ a w', a = y ∧ w' = w1)).
  { eapply returns_lift; [by apply seq_getitem_nat|done]. }
  intros ? ? [-> ->]. cbv beta.
  eapply (raises_bind _ _ _ _ (λ a w', a = xv ∧ w' = w1)).
  { eapply returns_lift; [by apply seq_getitem_nat|done]. }
  intros ? ? [-> ->]. cbv beta.
  rewrite <- Hh in HB.
  eapply raises_bind; [apply alloc_spec|].
  intros x w2 (X2 & F2 & L2). cbv beta.
  apply raises_bind_l.
  eapply forward_unsupported; [by eapply holds_ext|done|done|done|done].
Qed.

End unsupported.

(** ** Model construction *)

Section construction.
Context {F : Type} {fl : Float F}.
Implicit Types w : world F.
Implicit Types B : bundle F.

Lemma sampled_trans n1 n2 w0 w1 w2 :
  sampled n1 w0 w1 → sampled n2 w1 w2 → sampled (n1 + n2) w0 w2.
Proof.
  unfold sampled. intros (?&?&?&?&?) (?&?&?&?&?).
  repeat split; try congruence. lia.
Qed.

Lemma sampled_io n w0 w w' : sampled n w0 w → same_io w w' → sampled n w0 w'.
Proof.
  unfold sampled, same_io. intros (?&?&?&?&?) (?&?&?&?&?).
  repeat split; congruence.
Qed.

Lemma io_sampled n w0 w w' : same_io w0 w → sampled n w w' → sampled n w0 w'.
Proof.
  unfold sampled, same_io. intros (?&?&?&?&?) (?&?&?&?&?).
  repeat split; congruence.
Qed.

Lemma np_randn2_spec r c w :
  (0 ≤ r)%Z → (0 ≤ c)%Z →
  returns (np_randn2 r c) w
    (λ l w', fresh w l ∧ keeps (λ _, True) w w' ∧
       sampled (Z.to_nat r * Z.to_nat c) w w' ∧
       heap w' !! l =
         Some (Arr2 (Z.to_nat c)
                 (randn_rows (gauss w) (gdraws w) (Z.to_nat r) (Z.to_nat c)))).
Proof.
  intros Hr Hc. unfold np_randn2. rewrite decide_False by lia.
  apply returns_bind. unfold returns at 1, take_gauss.
  eexists _, _. split; [done|].
  eapply returns_mono; [apply alloc_spec|].
  intros l w' ([K I] & Fr & L). split; [done|]. split; [done|].
  split; [|done]. destruct I as (?&?&?&?&?). by repeat split.
Qed.

Lemma np_randn1_spec n w :
  (0 ≤ n)%Z →
  returns (np_randn1 n) w
    (λ l w', fresh w l ∧ keeps (λ _, True) w w' ∧
       sampled (Z.to_nat n) w w' ∧
       heap w' !! l = Some (Arr1 (randn_vec (gauss w) (gdraws w) (Z.to_nat n)))).
Proof.
  intros Hn. unfold np_randn1. rewrite decide_False by lia.
  apply returns_bind. unfold returns at 1, take_gauss.
  eexists _, _. split; [done|].
  eapply returns_mono; [apply alloc_spec|].
  intros l w' ([K I] & Fr & L). split; [done|]. split; [done|].
  split; [|done]. destruct I as (?&?&?&?&?). by repeat split.
Qed.

Lemma copy_array_spec l o w :
  heap w !! l = Some o → (∀ d, o ≠ Dict d) →
  returns (copy_array l) w
    (λ l' w', ext w w' ∧ fresh w l' ∧ heap w' !! l' = Some o).
Proof.
  intros Hl Ho. unfold copy_array. rd.
  destruct o; [apply alloc_spec..|]. by destruct (Ho d).
Qed.

Lemma copy_items_spec kv w :
  Forall (λ kl, ∃ o, heap w !! kl.2 = Some o ∧ ∀ d, o ≠ Dict d) kv →
  returns (copy_items kv) w
    (λ kv' w', ext w w' ∧ Forall2 (copied w w') kv kv').
Proof.
  revert w. induction kv as [|[k l] kv IH]; intros w Hkv.
  - apply returns_ret. split; [apply ext_refl|constructor].
  - apply Forall_cons in Hkv as [(o & Hl & Ho) Hkv]. simpl in Hl.
    simpl copy_items.
    step copy_array_spec; [done|done|]. intros l' w1 (X1 & F1 & L1).
    apply returns_bind. eapply returns_mono; [apply IH|].
    { eapply Forall_impl; [exact Hkv|]. intros [k2 l2] (o2 & H2 & Ho2).
      exists o2. split; [by apply (ext_lookup _ _ _ _ X1)|done]. }
    intros kv' w2 (X2 & HF). apply returns_ret.
    split; [by eapply ext_trans|]. constructor.
    + split; [done|]. split; [done|]. exists o. simpl.
      split; apply (ext_lookup _ _ _ _ X2); [|done].
      by apply (ext_lookup _ _ _ _ X1).
    + eapply Forall2_impl; [exact HF|].
      intros [k2 l2] [k2' l2'] (E & Fr & o2 & H2 & H2'). simpl in *.
      split; [done|]. split; [by eapply fresh_ext|]. by exists o2.
Qed.

Lemma copied_lookup w w' kv kv' k l :
  Forall2 (copied w w') kv kv' → NoDup kv.*1 → (k, l) ∈ kv →
  ∃ l' o, (list_to_map kv' : gmap string loc) !! k = Some l' ∧ fresh w l' ∧
          heap w' !! l = Some o ∧ heap w' !! l' = Some o.
Proof.
  intros HF. induction HF as [|[k1 l1] [k1' l1'] kv kv' (E & Fr & o & H1 & H2) HF IH];
    intros ND Hin; [by apply elem_of_nil in Hin|].
  simpl in *. subst k1'. apply NoDup_cons in ND as [Hnot ND].
  apply elem_of_cons in Hin as [[= -> ->]|Hin].
  - exists l1', o. by rewrite lookup_insert_eq.
  - destruct (IH ND Hin) as (l' & o' & Hl' & ?). exists l', o'.
    split; [|done]. rewrite lookup_insert_ne; [done|].
    intros ->. apply Hnot. apply list_elem_of_fmap. by exists (k, l).
Qed.

Lemma deepcopy_spec d g w :
  heap w !! d = Some (Dict g) →
  (∀ k l, g !! k = Some l → ∃ o, heap w !! l = Some o ∧ ∀ d', o ≠ Dict d') →
  returns (deepcopy d) w
    (λ d' w', ext w w' ∧ fresh w d' ∧
       ∃ g', heap w' !! d' = Some (Dict g') ∧
         ∀ k l, g !! k = Some l →
           ∃ l' o, g' !! k = Some l' ∧ fresh w l' ∧
                   heap w' !! l = Some o ∧ heap w' !! l' = Some o).
Proof.
  intros Hd Hg. unfold deepcopy. rd.
  step copy_items_spec.
  { apply Forall_forall. intros [k l] Hin. simpl.
    apply Hg with (k := k). by apply elem_of_map_to_list. }
  intros kv' w1 (X1 & HF).
  eapply returns_mono; [apply alloc_spec|].
  intros d' w2 (X2 & F2 & L2). split; [by eapply ext_trans|].
  split; [by eapply fresh_ext|]. eexists. split; [exact L2|].
  intros k l Hk.
  destruct (copied_lookup _ _ _ _ k l HF) as (l' & o & Hl' & Fr & H1 & H2).
  { apply NoDup_fst_map_to_list. } { by apply elem_of_map_to_list. }
  exists l', o. split; [done|]. split; [done|].
  split; by apply (ext_lookup _ _ _ _ X2).
Qed.

Lemma length_randn_rows (g : nat → F) i r c : length (randn_rows g i r c) = r.
Proof. unfold randn_rows. by rewrite length_map, length_seq. Qed.

Lemma Forall_randn_rows (g : nat → F) i r c :
  Forall (λ row, length row = c) (randn_rows g i r c).
Proof.
  unfold randn_rows. apply Forall_forall. intros row Hr.
  apply list_elem_of_fmap in Hr as (a & -> & _).
  by rewrite length_map, length_seq.
Qed.

Lemma Forall_map_map {A} (f : A → A) c (rows : list (list A)) :
  Forall (λ row, length row = c) rows →
  Forall (λ row, length row = c) (map (map f) rows).
Proof.
  intros Hr. apply Forall_fmap. eapply Forall_impl; [exact Hr|].
  intros row Hrow. simpl. by rewrite length_map.
Qed.

Lemma shaped_init_bundle (g : nat → F) i n_input n_h n_output :
  shaped (Z.to_nat n_input) (Z.to_nat n_h) (Z.to_nat n_output)
    (init_bundle g i n_input n_h n_output).
Proof.
  unfold shaped, init_bundle, randn_vec; simpl.
  rewrite !length_map, !length_randn_rows, !length_seq.
  repeat split; try done; apply Forall_map_map, Forall_randn_rows.
Qed.

Lemma init_model_spec (d : mnist.t F) (p : params.t F) w :
  (0 ≤ params.n_h p)%Z → (0 ≤ mnist.n_input d)%Z → (0 ≤ mnist.n_output d)%Z →
  let D := Z.to_nat (mnist.n_input d) in
  let Hn := Z.to_nat (params.n_h p) in
  let K := Z.to_nat (mnist.n_output d) in
  let B := init_bundle (gauss w) (gdraws w) (mnist.n_input d) (params.n_h p)
             (mnist.n_output d) in
  returns (init_model d p) w
    (λ r w', holds (heap w') r.1 D Hn B ∧ holds (heap w') r.2 D Hn B ∧
       fresh w r.1 ∧ fresh w r.2 ∧ r.1 ≠ r.2 ∧
       (∀ g g' k l l', heap w' !! r.1 = Some (Dict g) →
          heap w' !! r.2 = Some (Dict g') →
          g !! k = Some l → g' !! k = Some l' → l ≠ l') ∧
       keeps (λ _, True) w w' ∧
       sampled (Hn * D + K * Hn + Hn + K) w w').
Proof.
  intros Hh Hi Ho D Hn K B. subst D Hn K B. unfold init_model.
  step alloc_spec. intros m w1 (X1 & Fm & Lm).
  step np_randn2_spec; [done|done|]. intros r1 w2 (_ & K2 & S2 & L2).
  bringk K2.
  step np_map_spec2; [done|]. intros lW w3 (X3 & _ & LW). bring X3.
  step setitem_spec; [done|]. intros _ w4 (K4 & I4 & Lm4).
  carry K4 Lm. clear Lm.
  step np_randn2_spec; [done|done|]. intros r2 w5 (_ & K5 & S5 & L5).
  bringk K5.
  step np_map_spec2; [done|]. intros lC w6 (X6 & _ & LC). bring X6.
  step setitem_spec; [done|]. intros _ w7 (K7 & I7 & Lm7).
  carry K7 Lm4. clear Lm4.
  step np_randn1_spec; [done|]. intros r3 w8 (_ & K8 & S8 & L8).
  bringk K8.
  step np_map_spec; [done|]. intros lb1 w9 (X9 & _ & Lb1). bring X9.
  step setitem_spec; [done|]. intros _ w10 (K10 & I10 & Lm10).
  carry K10 Lm7. clear Lm7.
  step np_randn1_spec; [done|]. intros r4 w11 (_ & K11 & S11 & L11).
  bringk K11.
  step np_map_spec; [done|]. intros lb2 w12 (X12 & _ & Lb2). bring X12.
  step setitem_spec; [done|]. intros _ w13 (K13 & I13 & Lm13).
  carry K13 Lm10. clear Lm10.
  set (g := <["b2" := lb2]> (<["b1" := lb1]> (<["C" := lC]> (<["W" := lW]> ∅))))
    in *.
  set (dd := Z.to_nat (mnist.n_input d)) in *.
  set (hn := Z.to_nat (params.n_h p)) in *.
  set (kk := Z.to_nat (mnist.n_output d)) in *.
  assert (G2 : gauss w2 = gauss w ∧ gdraws w2 = (gdraws w + hn * dd)%nat).
  { destruct X1 as [_ (?&?&?&?&?)]. destruct S2 as (?&?&?&?&?).
    split; [congruence|]. lia. }
  assert (A5 : same_io w2 w4).
  { eapply same_io_trans; [apply (ext_io _ _ X3)|done]. }
  assert (G5 : gauss w5 = gauss w ∧
               gdraws w5 = (gdraws w + hn * dd + kk * hn)%nat ∧
               gauss w4 = gauss w ∧ gdraws w4 = (gdraws w + hn * dd)%nat).
  { destruct G2. destruct A5 as (?&?&?&?&?). destruct S5 as (?&?&?&?&?).
    repeat split; try congruence; lia. }
  assert (A8 : same_io w5 w7).
  { eapply same_io_trans; [apply (ext_io _ _ X6)|done]. }
  assert (G8 : gauss w8 = gauss w ∧
               gdraws w8 = (gdraws w + hn * dd + kk * hn + hn)%nat ∧
               gauss w7 = gauss w ∧
               gdraws w7 = (gdraws w + hn * dd + kk * hn)%nat).
  { destruct G5 as (?&?&_). destruct A8 as (?&?&?&?&?).
    destruct S8 as (?&?&?&?&?).
    repeat split; try congruence; lia. }
  assert (A11 : same_io w8 w10).
  { eapply same_io_trans; [apply (ext_io _ _ X9)|done]. }
  assert (G11 : gauss w10 = gauss w ∧
                gdraws w10 = (gdraws w + hn * dd + kk * hn + hn)%nat).
  { destruct G8 as (?&?&_). destruct A11 as (?&?&?&?&?).
    split; congruence. }
  assert (A13 : same_io w11 w13).
  { eapply same_io_trans; [apply (ext_io _ _ X12)|done]. }
  assert (EE : gauss w1 = gauss w ∧ gdraws w1 = gdraws w).
  { destruct X1 as [_ (_&_&Eg1&Ed1&_)]. done. }
  destruct EE as [Eg1 Ed1]. destruct G5 as (_&_&Eg4&Ed4).
  destruct G8 as (_&_&Eg7&Ed7). destruct G11 as (Eg10&Ed10).
  rewrite Eg1, Ed1 in LW. rewrite Eg4, Ed4 in LC.
  rewrite Eg7, Ed7 in Lb1. rewrite Eg10, Ed10 in Lb2.
  assert (HB : holds (heap w13) m dd hn
            (init_bundle (gauss w) (gdraws w) (mnist.n_input d) (params.n_h p)
               (mnist.n_output d))).
  { exists g, lW, lC, lb1, lb2. unfold g, init_bundle. cbn [tW tC tb1 tb2].
    repeat split; try done; by simplify_map_eq. }
  step deepcopy_spec; [done| |].
  { intros k l Hk. unfold g in Hk.
    apply lookup_insert_Some in Hk as [[_ <-]|[_ Hk]]; [by eexists|].
    apply lookup_insert_Some in Hk as [[_ <-]|[_ Hk]]; [by eexists|].
    apply lookup_insert_Some in Hk as [[_ <-]|[_ Hk]]; [by eexists|].
    apply lookup_insert_Some in Hk as [[_ <-]|[_ Hk]]; [by eexists|].
    by rewrite lookup_empty in Hk. }
  intros mg w14 (X14 & Fmg & g' & Lmg & Hcopy).
  apply returns_ret. cbn [fst snd].
  assert (Hne : m ≠ mg).
  { intros ->. unfold fresh in Fmg. congruence. }
  assert (KK : keeps (λ _, True) w w13).
  { intros l o _ Hl.
    assert (Hlm : l ≠ m) by (intros ->; unfold fresh in Fm; congruence).
    apply K13; [done|]. apply (ext_lookup _ _ _ _ X12). apply K11; [done|].
    apply K10; [done|]. apply (ext_lookup _ _ _ _ X9). apply K8; [done|].
    apply K7; [done|]. apply (ext_lookup _ _ _ _ X6). apply K5; [done|].
    apply K4; [done|]. apply (ext_lookup _ _ _ _ X3). apply K2; [done|].
    by apply (ext_lookup _ _ _ _ X1). }
  split; [by eapply holds_ext|]. split; [|split; [done|split]].
  - destruct (Hcopy "W" lW) as (gW & oW & HgW & _ & H1 & H2);
      [by unfold g; simplify_map_eq|].
    destruct (Hcopy "C" lC) as (gC & oC & HgC & _ & H3 & H4);
      [by unfold g; simplify_map_eq|].
    destruct (Hcopy "b1" lb1) as (gb1 & ob1 & Hgb1 & _ & H5 & H6);
      [by unfold g; simplify_map_eq|].
    destruct (Hcopy "b2" lb2) as (gb2 & ob2 & Hgb2 & _ & H7 & H8);
      [by unfold g; simplify_map_eq|].
    destruct HB as (g0 & a1 & a2 & a3 & a4 & E0 & E1 & E2 & E3 & E4 &
                    C1 & C2 & C3 & C4).
    rewrite Lm13 in E0. injection E0 as <-.
    unfold g in E1, E2, E3, E4. simplify_map_eq.
    bring X14. simplify_eq.
    exists g', gW, gC, gb1, gb2. repeat split; done.
  - unfold fresh in *. destruct (heap w !! mg) as [o|] eqn:E; [|done].
    apply KK in E; [|done]. congruence.
  - split; [done|]. split; [|split].
    + intros g1 g1' k l l' E1 E1' Hk Hk'.
      pose proof (ext_lookup _ _ _ _ X14 Lm13) as Lm14. rewrite Lm14 in E1.
      injection E1 as <-. rewrite Lmg in E1'. injection E1' as <-.
      destruct (Hcopy k l Hk) as (l2 & o & Hl2 & F2 & H1 & H2).
      rewrite Hk' in Hl2. injection Hl2 as <-.
      assert (is_Some (heap w13 !! l)) as [o' Ho'].
      { unfold g in Hk.
        apply lookup_insert_Some in Hk as [[_ <-]|[_ Hk]]; [by eexists|].
        apply lookup_insert_Some in Hk as [[_ <-]|[_ Hk]]; [by eexists|].
        apply lookup_insert_Some in Hk as [[_ <-]|[_ Hk]]; [by eexists|].
        apply lookup_insert_Some in Hk as [[_ <-]|[_ Hk]]; [by eexists|].
        by rewrite lookup_empty in Hk. }
      intros ->. unfold fresh in F2. congruence.
    + intros l o _ Hl. apply X14; [done|]. by apply KK.
    + assert (T : sampled (hn * dd + kk * hn + hn + kk) w w13).
      { destruct X1 as [_ I1].
        eapply io_sampled; [exact I1|].
        eapply sampled_io; [|exact A13].
        eapply sampled_trans; [|exact S11].
        eapply sampled_io; [|exact A11].
        eapply sampled_trans; [|exact S8].
        eapply sampled_io; [|exact A8].
        eapply sampled_trans; [|exact S5].
        eapply sampled_io; [|exact A5]. exact S2. }
      eapply sampled_io; [exact T|apply (ext_io _ _ X14)].
Qed.

End construction.

(** ** The arg-max *)

Section order.
Context {F : Type} {fl : Float F} {fo : FloatOrder F}.

(** the scan from a best entry that is a number: the result is the first
    [nan] when there is one, and the first maximum otherwise *)
Lemma argmax_from_spec (v : list F) :
  ∀ pre best bi i,
    length pre = i → pre !! bi = Some best → isnan best = false →
    (∀ j c, pre !! j = Some c →
       fle c best = true ∧ ((j < bi)%nat → fle best c = false)) →
    let r := argmax_from best bi i v in
    ∃ b, (pre ++ v) !! r = Some b ∧
         (∀ j c, (j < r)%nat → (pre ++ v) !! j = Some c → isnan c = false) ∧
         (isnan b = false →
          ∀ j c, (pre ++ v) !! j = Some c →
            fle c b = true ∧ ((j < r)%nat → fle b c = false)).
Proof.
  induction v as [|a t IH]; intros pre best bi i Hlen Hbi Hbest Hpre r.
  - exists best. subst r. simpl. rewrite app_nil_r. split; [done|]. split.
    + intros j c _ Hj. destruct (Hpre j c Hj) as [Hle _].
      by apply fle_number in Hle as [? _].
    + intros _. exact Hpre.
  - subst r. simpl.
    replace (pre ++ a :: t) with ((pre ++ [a]) ++ t)
      by (by rewrite <- app_assoc).
    pose proof (lookup_lt_Some _ _ _ Hbi) as Hlt.
    destruct (fle a best) eqn:Hab; [|destruct (isnan a) eqn:Hna].
    + apply IH; [|by apply lookup_app_l_Some|done|].
      * rewrite length_app. simpl. lia.
      * intros j c Hj. apply lookup_app_Some in Hj as [Hj|[Hge Hj]].
        -- by apply Hpre.
        -- apply list_lookup_singleton_Some in Hj as [Hj ->].
           split; [done|]. lia.
    + exists a. split; [|split].
      * rewrite <- app_assoc. by apply list_lookup_middle.
      * intros j c Hj Hc. rewrite <- app_assoc in Hc.
        rewrite lookup_app_l in Hc by lia.
        destruct (Hpre j c Hc) as [Hle _].
        by apply fle_number in Hle as [? _].
      * intros Hn. congruence.
    + assert (Hba : fle best a = true).
      { destruct (fle_total a best Hna Hbest) as [Hx|Hx]; [congruence|done]. }
      apply IH; [| |done|].
      * rewrite length_app. simpl. lia.
      * subst i. by rewrite list_lookup_middle.
      * intros j c Hj. apply lookup_app_Some in Hj as [Hj|[Hge Hj]].
        -- destruct (Hpre j c Hj) as [Hle _]. split.
           ++ by apply (fle_trans c best a).
           ++ intros _. destruct (fle a c) eqn:Hac; [|done].
              pose proof (fle_trans a c best Hac Hle). congruence.
        -- apply list_lookup_singleton_Some in Hj as [Hj ->].
           split; [by apply fle_refl|]. lia.
Qed.

End order.

(** ** Exact arithmetic is ordered *)

#[export] Instance real_order : FloatOrder R.
Proof.
  split; simpl.
  - intros a _. apply bool_decide_eq_true. lra.
  - intros a b c Hab Hbc. apply bool_decide_eq_true.
    apply bool_decide_eq_true in Hab, Hbc. lra.
  - intros a b _ _. destruct (Rle_dec a b) as [Hle|Hle].
    + left. by apply bool_decide_eq_true.
    + right. apply bool_decide_eq_true. lra.
  - done.
Qed.

(** * The claims *)

(** facts about the concrete states *)

Lemma holds_tiny : holds tiny_heap 0 1 1 tiny_bundle.
Proof. exists tiny_dict, 1%nat, 2%nat, 3%nat, 4%nat. by repeat split. Defined.

Lemma shaped_tiny : shaped 1 1 1 tiny_bundle.
Proof. by repeat split; repeat constructor. Defined.

Lemma supported_tanh : supported "tanh".
Proof. by left. Defined.

Lemma supported_sigmoid : supported "sigmoid".
Proof. by right. Defined.

Lemma train_set_tiny : train_set_ok 1 1 tiny_mnist.
Proof.
  repeat split; try reflexivity; repeat constructor; simpl; lia.
Defined.

Lemma unsupported_relu : ¬ supported "relu".
Proof. intros [E|E]; discriminate E. Defined.

Lemma holds_image : holds (heap image_world) 0 784 1 image_bundle.
Proof. exists tiny_dict, 1%nat, 2%nat, 3%nat, 4%nat. by repeat split. Defined.

Lemma shaped_image : shaped 784 1 1 image_bundle.
Proof. by repeat split; repeat constructor. Defined.

Lemma test_set_image : test_set_ok 784 image_mnist.
Proof. by repeat split; repeat constructor. Defined.

(** C1. Backward pass: for a label [0 <= y < K], forward outputs [z], [h],
    [p] and the matrix [C] of the parameter bundle, [backprop] returns the
    gradient dict with [db2 = one_hot(y) - p] (formed as [-1.0 * p] with
    [1.0] added at the entry [y]), [dC = outer(db2, h)],
    [db1 = (C^T db2) * activate_derivative(z)] entry by entry and
    [dW = outer(db1, x)], in the arithmetic of the program.  The four tensors
    are the same whatever the dict [gg] held before: nothing is
    accumulated. *)
Theorem backprop_gradients `{Kernels F} x xv y f pv Z_ zv Hl hv m g lC Hn Cm
    mg gg func (w : world F) :
  heap w !! x = Some (Arr1 xv) → heap w !! f = Some (Arr1 pv) →
  heap w !! Z_ = Some (Arr1 zv) → heap w !! Hl = Some (Arr1 hv) →
  heap w !! m = Some (Dict g) → g !! "C" = Some lC →
  heap w !! lC = Some (Arr2 Hn Cm) →
  length Cm = length pv → length zv = Hn →
  heap w !! mg = Some (Dict gg) →
  (0 ≤ y < Z.of_nat (length pv))%Z → supported func →
  let db2 := grad_b2 (Z.to_nat y) pv in
  let dC := outer db2 hv in
  let db1 := vmul (gemv_t Hn Cm db2)
                  (map (activate_derivative func) zv) in
  let dW := outer db1 xv in
  returns (backprop x y f Z_ Hl m mg func) w
    (λ r w', r = mg ∧
       holds (heap w') mg (length xv) (length hv)
         {| tW := dW; tC := dC; tb1 := db1; tb2 := db2 |} ∧
       ∀ i a, pv !! i = Some a →
         db2 !! i = Some (if decide (i = Z.to_nat y)
                          then fadd (fmul (lit (-1)) a) (lit 1)
                          else fmul (lit (-1)) a)).
Proof.
  intros Hx Hf HZ HH Hm HC LC SC Sz Hmg Hy Hfunc db2 dC db1 dW.
  eapply returns_mono.
  - eapply (backprop_spec x xv y (Z.to_nat y)); try eassumption.
    + by apply py_index_nonneg.
    + lia.
  - intros r w' (-> & _ & _ & lW & lC' & lb1 & lb2 & _ & _ & _ & _ &
                 Ld & LW & LC' & Lb1 & Lb2).
    split; [done|]. split.
    + eexists _, lW, lC', lb1, lb2.
      split; [exact Ld|]. repeat split; try done; by simplify_map_eq.
    + intros i a Hi. unfold db2, grad_b2. by rewrite list_lookup_imap, Hi.
Qed.

Lemma backprop_gradients_witness :
  returns (backprop 6 0 7 8 9 0 5 "tanh") tiny_world
    (λ r w', r = 5%nat ∧
       holds (heap w') 5 1 1
         {| tW := outer (vmul (gemv_t 1 [[0]] (grad_b2 0 [1]))
                          (map (activate_derivative "tanh") [0])) [0];
            tC := outer (grad_b2 0 [1]) [0];
            tb1 := vmul (gemv_t 1 [[0]] (grad_b2 0 [1]))
                        (map (activate_derivative "tanh") [0]);
            tb2 := grad_b2 0 [1] |} ∧
       ∀ i a, [1] !! i = Some a →
         grad_b2 0 [1] !! i = Some (if decide (i = 0%nat)
                                    then fadd (fmul (lit (-1)) a) (lit 1)
                                    else fmul (lit (-1)) a)).
Proof.
  apply (backprop_gradients 6 [0] 0 7 [1] 8 [0] 9 [0] 0 tiny_dict 2 1 [[0]] 5 ∅
           "tanh" tiny_world); try reflexivity.
  - simpl. lia.
  - apply supported_tanh.
Defined.

(** C2. Forward pass: for [x] of length [D] and a bundle of shapes H x D,
    K x H, H, K, [forward] returns cells holding [z = W x + b1],
    [h = activate(z)] and [p = softmax(C h + b2)], each formula evaluated in
    the arithmetic of the program.  The contents depend on the contents of
    [x] and of the bundle only, and every cell of the state before the call,
    [x] and the bundle among them, is unchanged. *)
Theorem forward_pass_correct `{Kernels F} x xv m D Hn K B func (w : world F) :
  holds (heap w) m D Hn B → shaped D Hn K B →
  heap w !! x = Some (Arr1 xv) → length xv = D → supported func →
  let z := vadd (gemv (tW B) xv) (tb1 B) in
  let h := map (activate func) z in
  let p := softmax (vadd (gemv (tC B) h) (tb2 B)) in
  returns (forward x m func) w
    (λ r w', heap w' !! r.1.1 = Some (Arr1 z) ∧
             heap w' !! r.1.2 = Some (Arr1 h) ∧
             heap w' !! r.2 = Some (Arr1 p) ∧
             ext w w' ∧
             heap w' !! x = Some (Arr1 xv) ∧ holds (heap w') m D Hn B).
Proof.
  intros HB Sh Hx Hl Hf z h p.
  eapply returns_mono; [by eapply forward_spec|].
  intros r w' (X & _ & _ & _ & Lz & Lh & Lp).
  split; [done|]. split; [done|]. split; [done|]. split; [done|].
  split; [by apply (ext_lookup _ _ _ _ X)|by eapply holds_ext].
Qed.

Lemma forward_pass_correct_witness :
  returns (forward 6 0 "sigmoid") tiny_world
    (λ r w',
       heap w' !! r.1.1 = Some (Arr1 (vadd (gemv [[0]] [0]) [0])) ∧
       heap w' !! r.1.2 =
         Some (Arr1 (map (activate "sigmoid") (vadd (gemv [[0]] [0]) [0]))) ∧
       heap w' !! r.2 =
         Some (Arr1 (softmax
                 (vadd (gemv [[0]]
                          (map (activate "sigmoid") (vadd (gemv [[0]] [0]) [0])))
                       [0]))) ∧
       ext tiny_world w' ∧
       heap w' !! 6%nat = Some (Arr1 [0]) ∧ holds (heap w') 0 1 1 tiny_bundle).
Proof.
  apply (forward_pass_correct 6 [0] 0 1 1 1 tiny_bundle "sigmoid" tiny_world).
  - apply holds_tiny.
  - apply shaped_tiny.
  - reflexivity.
  - reflexivity.
  - apply supported_sigmoid.
Defined.

(** C3, the claim as written fails in binary64: with the defaults, the
    statement at the head of epoch 5 turns the rate 0.1 of the epochs 0..4
    into [0.1 * 0.1], which is not the float 0.01; neither are the rates of
    the epochs 10 and 15 the floats 0.001 and 0.0001.  It also fails when
    the interval is not positive: with the interval 0 the statement at the
    head of epoch 1 raises ZeroDivisionError, and with the interval -5 the
    rate is multiplied by the decay at epoch 5, not divided by it. *)
Lemma default_rates_are_rounded_products :
  lr_schedule params.default 5 (lit 0.1) world64
    = Ok (fmul (lit 0.1) (lit 0.1), world64) ∧
  lr_schedule zero_interval_params 1 (lit 0.1) world64
    = Raise ZeroDivisionError ∧
  lr_schedule negative_interval_params 5 (lit 0.1) world64
    = Ok (fmul (lit 0.1) (lit 0.1), world64) ∧
  staircase (F := PrimFloat.float) params.default 4 = lit 0.1 ∧
  staircase (F := PrimFloat.float) params.default 5
    = fmul (lit 0.1) (lit 0.1) ∧
  staircase (F := PrimFloat.float) params.default 5 ≠ lit 0.01 ∧
  staircase (F := PrimFloat.float) params.default 10 ≠ lit 0.001 ∧
  staircase (F := PrimFloat.float) params.default 15 ≠ lit 0.0001.
Proof.
  split; [reflexivity|]. split; [reflexivity|]. split; [reflexivity|].
  split; [reflexivity|]. split; [reflexivity|].
  repeat split; intros E.
  - pose proof (f_equal (λ a, PrimFloat.eqb a (lit 0.01)) E) as Hb.
    vm_compute in Hb. discriminate Hb.
  - pose proof (f_equal (λ a, PrimFloat.eqb a (lit 0.001)) E) as Hb.
    vm_compute in Hb. discriminate Hb.
  - pose proof (f_equal (λ a, PrimFloat.eqb a (lit 0.0001)) E) as Hb.
    vm_compute in Hb. discriminate Hb.
Qed.

(** C3, as amended.  With a positive decay interval [nn_train] is the
    training loop in which the sample-steps of epoch [e] (from 0) use the
    rate [staircase p e]: the initial rate multiplied [e / interval] times
    (integer division) by the decay, every product being rounded.  The rate
    is [params.lr] at epoch 0 and is multiplied by the decay exactly when
    the next epoch index is divisible by the interval, as the statement at
    the head of the epoch does.  With interval 5, decay 0.1 and initial rate
    0.1 the rates of the epochs 0, 5, 10, 15 are 0.1, 0.1*0.1, 0.1*0.1*0.1
    and 0.1*0.1*0.1*0.1, the products taken from the left. *)
Theorem learning_rate_schedule `{Kernels F} (p : params.t F) :
  (0 < params.interval p)%Z →
  (∀ m mg d w,
     nn_train m mg p d w = train_at_rates m mg p d (staircase p) w) ∧
  staircase p 0 = params.lr p ∧
  (∀ e, (0 ≤ e)%Z →
     staircase p (e + 1) =
     if decide ((e + 1) `mod` params.interval p = 0)%Z
     then fmul (staircase p e) (params.decay p) else staircase p e) ∧
  (∀ epochs LR w,
     lr_schedule p epochs LR w =
     Ok (if decide (0 < epochs ∧ epochs `mod` params.interval p = 0)%Z
         then fmul LR (params.decay p) else LR, w)) ∧
  (staircase (F := F) params.default 0 = lit 0.1 ∧
   staircase (F := F) params.default 5 = fmul (lit 0.1) (lit 0.1) ∧
   staircase (F := F) params.default 10
     = fmul (fmul (lit 0.1) (lit 0.1)) (lit 0.1) ∧
   staircase (F := F) params.default 15
     = fmul (fmul (fmul (lit 0.1) (lit 0.1)) (lit 0.1)) (lit 0.1)).
Proof.
  intros Hi. split; [|split; [|split; [|split]]].
  - intros m mg d w. by apply nn_train_at_rates.
  - apply staircase_0.
  - intros e He. rewrite staircase_succ by done. unfold lr_next.
    destruct (decide ((e + 1) `mod` params.interval p = 0)%Z) as [Hm|Hm].
    + rewrite decide_True; [done|]. split; [lia|done].
    + rewrite decide_False; [done|]. tauto.
  - intros epochs LR w. rewrite lr_schedule_run by lia. done.
  - done.
Qed.

Lemma learning_rate_schedule_witness :
  nn_train 0 5 params.default tiny_mnist tiny_world =
  train_at_rates 0 5 params.default tiny_mnist (staircase params.default)
    tiny_world.
Proof.
  destruct (learning_rate_schedule (F := R) params.default eq_refl) as [Hrun _].
  exact (Hrun 0%nat 5%nat tiny_mnist tiny_world).
Defined.

(** C6.  [softmax_function] on [[1000., 0.]] in binary64: [exp(1000.)]
    overflows to [inf], so does the sum, and the output is [[nan, 0.]]: the
    first entry is not in [0, 1] and the entries do not sum to 1.  What is
    needed of libm and of [np.sum] is stated: the overflow, [exp(0.) = 1.]
    and [inf + 1. = inf]. *)
Theorem softmax_function_overflow `{kernels64} z (w : world PrimFloat.float) :
  m_exp (lit 1000) = PrimFloat.infinity → m_exp (lit 0) = lit 1 →
  m_sum [PrimFloat.infinity; lit 1] = PrimFloat.infinity →
  heap w !! z = Some (Arr1 [lit 1000; lit 0]) →
  returns (softmax_function z) w
    (λ l w', heap w' !! l = Some (Arr1 [PrimFloat.nan; lit 0])).
Proof.
  intros Hexp Hexp0 Hsum Hz.
  eapply returns_mono; [by apply softmax_function_spec|].
  intros l w' (_ & _ & L). rewrite L. do 2 f_equal.
  unfold softmax. cbn [map fexp fsum binary64_kernels].
  rewrite Hexp, Hexp0, Hsum. reflexivity.
Qed.

Lemma softmax_function_overflow_witness :
  returns (@softmax_function _ _ coarse_kernels 0) world64
    (λ l w', heap w' !! l = Some (Arr1 [PrimFloat.nan; lit 0])).
Proof.
  apply (@softmax_function_overflow coarse64 0%nat world64); reflexivity.
Defined.

(** C7.  [sigma] and [d_sigma] on [[1000.]] with the kind sigmoid, in
    binary64: [exp(1000.)] overflows to [inf], [exp(z)/(1+exp(z))] is
    [inf/inf], and both return [[nan]]; the logistic [1/(1+exp(-z))] of the
    claim is [1.] there, [exp(-1000.)] being 0. *)
Theorem sigmoid_overflow `{kernels64} z (w : world PrimFloat.float) :
  m_exp (lit 1000) = PrimFloat.infinity → m_exp (lit (-1000)) = lit 0 →
  heap w !! z = Some (Arr1 [lit 1000]) →
  returns (sigma z "sigmoid") w
    (λ l w', heap w' !! l = Some (Arr1 [PrimFloat.nan])) ∧
  returns (d_sigma z "sigmoid") w
    (λ l w', heap w' !! l = Some (Arr1 [PrimFloat.nan])) ∧
  fdiv (lit 1) (fadd (lit 1) (m_exp (lit (-1000)))) = lit 1.
Proof.
  intros Hexp Hexp' Hz. split; [|split].
  - eapply returns_mono; [by apply sigma_spec; [|right]|].
    intros l w' (_ & _ & L). rewrite L. do 2 f_equal.
    cbn [map]. unfold activate. rewrite decide_False by discriminate.
    cbn [fexp binary64_kernels]. rewrite Hexp. reflexivity.
  - eapply returns_mono; [by apply d_sigma_spec; [|right]|].
    intros l w' (_ & _ & L). rewrite L. do 2 f_equal.
    cbn [map]. unfold activate_derivative, activate.
    rewrite !decide_False by discriminate.
    cbn [fexp binary64_kernels]. rewrite Hexp. reflexivity.
  - rewrite Hexp'. reflexivity.
Qed.

Lemma sigmoid_overflow_witness :
  returns (@sigma _ _ coarse_kernels 1 "sigmoid") world64
    (λ l w', heap w' !! l = Some (Arr1 [PrimFloat.nan])) ∧
  returns (@d_sigma _ _ coarse_kernels 1 "sigmoid") world64
    (λ l w', heap w' !! l = Some (Arr1 [PrimFloat.nan])) ∧
  fdiv (lit 1) (fadd (lit 1) (coarse_exp (lit (-1000)))) = lit 1.
Proof.
  apply (@sigmoid_overflow coarse64 1%nat world64); reflexivity.
Defined.

(** C4. Training: every sample-step draws one index of the training set and
    replaces the four tensors by [param + LR * gradient], the gradient being
    that of the backward pass for the drawn sample; an epoch is [n_train]
    sample-steps; after [n_epochs] epochs [nn_train] returns the model dict,
    which holds the result of these steps, [n_epochs * n_train] draws have
    been made and one report per epoch has been printed. *)
Theorem nn_train_sgd `{Kernels F} m mg gg D Hn K B (p : params.t F)
    (d : mnist.t F) (w : world F) :
  holds (heap w) m D Hn B → shaped D Hn K B → (0 < K)%nat →
  heap w !! mg = Some (Dict gg) → m ≠ mg →
  train_set_ok D K d → (0 < mnist.n_train d)%Z →
  supported (params.sigma p) → params.interval p ≠ 0%Z →
  (∀ LR n tc,
     let j := drawn d (rand w) (draws w) in
     returns (train_sample m p d LR n (tc, mg)) w
       (λ r w', r.2 = mg ∧
          holds (heap w') m D Hn
            (sgd_step (params.sigma p) Hn LR B (nth j (mnist.x_train d) [])
               (Z.to_nat (nth j (mnist.y_train d) 0%Z))) ∧
          draws w' = (draws w + 1)%nat)) ∧
  (let E := Z.to_nat (params.n_epochs p) in
   let N1 := Z.to_nat (mnist.n_train d) in
   returns (nn_train m mg p d) w
     (λ r w', r = m ∧
        holds (heap w') m D Hn
          (sgd_epochs (params.sigma p) Hn p d (rand w) (draws w) 0 E
             (params.lr p) B) ∧
        draws w' = (draws w + E * N1)%nat ∧
        ∃ evs, epoch_reports (py_range (params.n_epochs p)) evs ∧
               out w' = out w ++ evs)).
Proof.
  intros HB Sh HK Hmg Hne HT HN Hf Hi. split.
  - intros LR n tc j.
    eapply returns_mono; [by eapply train_sample_spec|].
    intros r w' (Er & HB' & _ & _ & A). split; [done|]. split; [done|].
    apply A.
  - intros E N1.
    eapply returns_mono; [by eapply nn_train_spec|].
    intros r w' (Er & HB' & _ & _ & evs & Hevs & A).
    split; [done|]. split; [done|]. split; [apply A|].
    exists evs. split; [done|apply A].
Qed.

Lemma nn_train_sgd_witness :
  returns (nn_train 0 5 params.default tiny_mnist) tiny_world
    (λ r w', r = 0%nat ∧
       holds (heap w') 0 1 1
         (sgd_epochs (params.sigma params.default) 1 params.default tiny_mnist
            (rand tiny_world) (draws tiny_world) 0
            (Z.to_nat (params.n_epochs params.default))
            (params.lr params.default) tiny_bundle) ∧
       draws w' = (draws tiny_world +
                   Z.to_nat (params.n_epochs (F := R) params.default) *
                   Z.to_nat (mnist.n_train tiny_mnist))%nat ∧
       ∃ evs, epoch_reports (py_range (params.n_epochs (F := R) params.default))
                evs ∧
              out w' = out tiny_world ++ evs).
Proof.
  refine (proj2 (nn_train_sgd 0 5 ∅ 1 1 1 tiny_bundle params.default tiny_mnist
                   tiny_world holds_tiny shaped_tiny _ eq_refl _ train_set_tiny
                   eq_refl supported_sigmoid _)).
  - lia.
  - discriminate.
  - discriminate.
Defined.

(** C5, the claim as written fails: with the kind "relu" model construction
    returns the two bundles; nothing is rejected at model-build time. *)
Lemma unsupported_kind_passes_model_build :
  params.sigma relu_params = "relu" ∧ ¬ supported "relu" ∧
  returns (init_model tiny_mnist relu_params) tiny_world
    (λ r w', holds (heap w') r.1 1 1
               (init_bundle (gauss tiny_world) (gdraws tiny_world) 1 1 1) ∧
             r.1 ≠ r.2).
Proof.
  split; [done|]. split; [apply unsupported_relu|].
  eapply returns_mono.
  - apply (init_model_spec tiny_mnist relu_params tiny_world); simpl; lia.
  - intros r w' (HB & _ & _ & _ & Hne & _). split; [exact HB|exact Hne].
Qed.

(** C5, as amended.  With a kind other than tanh and sigmoid every call of
    [sigma] and of [d_sigma] ends the process with the message
    "Unsupported function type!".  Model construction does not read the kind
    and succeeds; the exit comes in the training loop, from the forward pass
    of the first sample-step. *)
Theorem unsupported_kind_exits_in_first_forward `{Kernels F} func :
  ¬ supported func →
  (∀ z (w : world F),
     sigma z func w = Raise (SystemExit "Unsupported function type!") ∧
     d_sigma z func w = Raise (SystemExit "Unsupported function type!")) ∧
  (∀ (d : mnist.t F) p p',
     params.n_h p = params.n_h p' → init_model d p = init_model d p') ∧
  (∀ (d : mnist.t F) p w, params.sigma p = func → (0 ≤ params.n_h p)%Z →
     (0 ≤ mnist.n_input d)%Z → (0 ≤ mnist.n_output d)%Z →
     returns (init_model d p) w (λ r w', r.1 ≠ r.2)) ∧
  (∀ x xv m D Hn K B (w : world F),
     holds (heap w) m D Hn B → shaped D Hn K B →
     heap w !! x = Some (Arr1 xv) → length xv = D →
     forward x m func w = Raise (SystemExit "Unsupported function type!")) ∧
  (∀ m mg D Hn K B p d (w : world F),
     params.sigma p = func →
     holds (heap w) m D Hn B → shaped D Hn K B → train_set_ok D K d →
     (0 < mnist.n_train d)%Z → (0 < params.n_epochs p)%Z →
     nn_train m mg p d w = Raise (SystemExit "Unsupported function type!")).
Proof.
  intros Hf. split; [|split; [|split; [|split]]].
  - intros z w. split; [by apply sigma_unsupported|by apply d_sigma_unsupported].
  - intros d p p' E. unfold init_model. by rewrite E.
  - intros d p w _ Hh Hi Ho.
    eapply returns_mono; [by apply init_model_spec|].
    intros r w' (_ & _ & _ & _ & Hne & _). exact Hne.
  - intros x xv m D Hn K B w HB Sh Hx Hl. by eapply forward_unsupported.
  - intros m mg D Hn K B p d w <- HB Sh HT HN HE.
    by eapply nn_train_unsupported.
Qed.

Lemma unsupported_kind_exits_in_first_forward_witness :
  nn_train 0 5 relu_params tiny_mnist tiny_world =
  Raise (SystemExit "Unsupported function type!").
Proof.
  destruct (unsupported_kind_exits_in_first_forward (F := R) "relu"
              unsupported_relu)
    as (_ & _ & _ & _ & Hrun).
  exact (Hrun 0%nat 5%nat 1%nat 1%nat 1%nat tiny_bundle relu_params tiny_mnist
           tiny_world eq_refl holds_tiny shaped_tiny train_set_tiny
           eq_refl eq_refl).
Defined.

(** C8. Evaluation: [nn_test] takes the test samples once each, in their
    order, predicts by the arg-max of the forward pass, and prints
    total-correct / n_test.  The figures it draws are, in order of encounter,
    the first min(5, number correct) correctly classified samples and the
    first min(5, number wrong) misclassified ones.  (A sample has
    784 = 28 x 28 pixels, as [plot_predict] requires.) *)
Theorem nn_test_accuracy_and_selection `{Kernels F} m Hn K B (p : params.t F)
    (d : mnist.t F) (w : world F) :
  holds (heap w) m 784 Hn B → shaped 784 Hn K B → (0 < K)%nat →
  test_set_ok 784 d → (0 < mnist.n_test d)%Z →
  supported (params.sigma p) →
  let evs := outcomes (params.sigma p) B d in
  let total_correct := Z.of_nat (length (filter correct evs)) in
  returns (nn_test m p d) w
    (λ _ w', ∃ plots,
       out w' = out w ++ plots ++
                [TestReport (IZR total_correct / IZR (mnist.n_test d))] ∧
       plots `sublist_of` evs ∧
       filter correct plots = take 5 (filter correct evs) ∧
       filter (λ ev, ¬ correct ev) plots =
         take 5 (filter (λ ev, ¬ correct ev) evs) ∧
       length (filter correct plots) =
         Nat.min 5 (length (filter correct evs)) ∧
       length (filter (λ ev, ¬ correct ev) plots) =
         Nat.min 5 (length (filter (λ ev, ¬ correct ev) evs)) ∧
       keeps (λ _, True) w w' ∧ draws w' = draws w).
Proof.
  intros HB Sh HK HT HN Hf evs total_correct.
  eapply returns_mono; [by eapply nn_test_spec|].
  intros _ w' (KK & A). fold evs in A. exists (shown 5 0 0 evs).
  pose proof (filter_shown_correct 5 0 0 evs) as F1.
  pose proof (filter_shown_wrong 5 0 0 evs) as F2.
  change (Z.to_nat (5 - 0)) with 5%nat in F1, F2.
  split; [apply A|]. split; [apply shown_sublist|].
  split; [done|]. split; [done|].
  split; [by rewrite F1, length_take|].
  split; [by rewrite F2, length_take|].
  split; [done|]. destruct A as (_ & Ad & _). lia.
Qed.

Lemma nn_test_accuracy_and_selection_witness :
  let evs := outcomes (params.sigma (F := R) params.default) image_bundle
               image_mnist in
  let total_correct := Z.of_nat (length (filter correct evs)) in
  returns (nn_test 0 params.default image_mnist) image_world
    (λ _ w', ∃ plots,
       out w' = out image_world ++ plots ++
                [TestReport (IZR total_correct / IZR (mnist.n_test image_mnist))] ∧
       plots `sublist_of` evs ∧
       filter correct plots = take 5 (filter correct evs) ∧
       filter (λ ev, ¬ correct ev) plots =
         take 5 (filter (λ ev, ¬ correct ev) evs) ∧
       length (filter correct plots) =
         Nat.min 5 (length (filter correct evs)) ∧
       length (filter (λ ev, ¬ correct ev) plots) =
         Nat.min 5 (length (filter (λ ev, ¬ correct ev) evs)) ∧
       keeps (λ _, True) image_world w' ∧ draws w' = draws image_world).
Proof.
  refine (nn_test_accuracy_and_selection 0 1 1 image_bundle params.default
            image_mnist image_world holds_image shaped_image _ test_set_image
            eq_refl supported_sigmoid).
  lia.
Defined.

(** C9. Frame of the backward pass: [backprop] writes to the gradient dict
    it was given and to cells it allocates itself.  Every other cell keeps
    its content: the arrays [x], [f], [Z], [H] and the four tensors of the
    parameter bundle, and the parameter dict when it is not the gradient
    dict.  [dU[y]] is written in a new array, not in [f]. *)
Theorem backprop_frame `{Kernels F} x xv y f pv Z_ zv Hl hv m D Hn B mg gg
    func (w : world F) :
  heap w !! x = Some (Arr1 xv) → heap w !! f = Some (Arr1 pv) →
  heap w !! Z_ = Some (Arr1 zv) → heap w !! Hl = Some (Arr1 hv) →
  holds (heap w) m D Hn B →
  length (tC B) = length pv → length zv = Hn →
  heap w !! mg = Some (Dict gg) →
  (0 ≤ y < Z.of_nat (length pv))%Z → supported func →
  returns (backprop x y f Z_ Hl m mg func) w
    (λ _ w',
       (∀ l o, l ≠ mg → heap w !! l = Some o → heap w' !! l = Some o) ∧
       heap w' !! x = Some (Arr1 xv) ∧ heap w' !! f = Some (Arr1 pv) ∧
       heap w' !! Z_ = Some (Arr1 zv) ∧ heap w' !! Hl = Some (Arr1 hv) ∧
       (∀ g k l o, heap w !! m = Some (Dict g) → g !! k = Some l →
          heap w !! l = Some o → (∀ d, o ≠ Dict d) → heap w' !! l = Some o) ∧
       (m ≠ mg → holds (heap w') m D Hn B) ∧
       same_io w w').
Proof.
  intros Hx Hf HZ HH HB SC Sz Hmg Hy Hfunc.
  pose proof HB as (g & lW & lC & lb1 & lb2 & Hm & HgW & HgC & Hgb1 & Hgb2 &
                    LW & LC & Lb1 & Lb2).
  eapply returns_mono.
  - eapply (backprop_spec x xv y (Z.to_nat y)); try eassumption.
    + by apply py_index_nonneg.
    + lia.
  - intros r w' (-> & KK & I & _).
    assert (Harr : ∀ l o, heap w !! l = Some o → (∀ d, o ≠ Dict d) →
                          heap w' !! l = Some o).
    { intros l o Hlo Ho. apply KK; [|done]. intros ->.
      rewrite Hmg in Hlo. injection Hlo as <-. by eapply Ho. }
    split; [intros l o Hlo Ho; by apply KK|].
    split; [by apply Harr|]. split; [by apply Harr|].
    split; [by apply Harr|]. split; [by apply Harr|].
    split; [intros g0 k l o _ _ Hlo Ho; by apply Harr|].
    split; [|done].
    intros Hne. exists g, lW, lC, lb1, lb2.
    repeat split; try done; try (by apply Harr). by apply KK.
Qed.

Lemma backprop_frame_witness :
  returns (backprop 6 0 7 8 9 0 5 "tanh") tiny_world
    (λ _ w',
       (∀ l o, l ≠ 5%nat → heap tiny_world !! l = Some o →
               heap w' !! l = Some o) ∧
       heap w' !! 6%nat = Some (Arr1 [0]) ∧ heap w' !! 7%nat = Some (Arr1 [1]) ∧
       heap w' !! 8%nat = Some (Arr1 [0]) ∧ heap w' !! 9%nat = Some (Arr1 [0]) ∧
       (∀ g k l o, heap tiny_world !! 0%nat = Some (Dict g) → g !! k = Some l →
          heap tiny_world !! l = Some o → (∀ d, o ≠ Dict d) →
          heap w' !! l = Some o) ∧
       (0%nat ≠ 5%nat → holds (heap w') 0 1 1 tiny_bundle) ∧
       same_io tiny_world w').
Proof.
  refine (backprop_frame 6 [0] 0 7 [1] 8 [0] 9 [0] 0 1 1 tiny_bundle 5 ∅ "tanh"
            tiny_world eq_refl eq_refl eq_refl eq_refl holds_tiny eq_refl
            eq_refl eq_refl _ supported_tanh).
  simpl. lia.
Defined.

(** C10. With the kind tanh or sigmoid the exit branch of [sigma] and of
    [d_sigma] is never taken: on an array both return an array, and no run
    of the forward pass, the backward pass, [nn_train] or [nn_test] ends in
    [sys.exit], whatever the state and the data. *)
Theorem supported_kind_never_exits `{Kernels F} (p : params.t F) :
  supported (params.sigma p) →
  (∀ z zv (w : world F), heap w !! z = Some (Arr1 zv) →
     returns (sigma z (params.sigma p)) w
       (λ l w', ∃ v, heap w' !! l = Some (Arr1 v)) ∧
     returns (d_sigma z (params.sigma p)) w
       (λ l w', ∃ v, heap w' !! l = Some (Arr1 v))) ∧
  (∀ z, no_exit (F := F) (sigma z (params.sigma p)) ∧
        no_exit (F := F) (d_sigma z (params.sigma p))) ∧
  (∀ x m, no_exit (F := F) (forward x m (params.sigma p))) ∧
  (∀ x y f Z_ Hl m mg,
     no_exit (F := F) (backprop x y f Z_ Hl m mg (params.sigma p))) ∧
  (∀ m mg d, no_exit (nn_train m mg p d)) ∧
  (∀ m d, no_exit (nn_test m p d)).
Proof.
  intros Hf. split; [|split; [|split; [|split; [|split]]]].
  - intros z zv w Hz. split.
    + eapply returns_mono; [by apply sigma_spec|].
      intros l w' (_ & _ & L). by eexists.
    + eapply returns_mono; [by apply d_sigma_spec|].
      intros l w' (_ & _ & L). by eexists.
  - intros z. split; [by apply no_exit_sigma|by apply no_exit_d_sigma].
  - intros x m. by apply no_exit_forward.
  - intros x y f Z_ Hl m mg. by apply no_exit_backprop.
  - intros m mg d. by apply no_exit_nn_train.
  - intros m d. by apply no_exit_nn_test.
Qed.

Lemma supported_kind_never_exits_witness :
  no_exit (nn_train 0 5 params.default tiny_mnist).
Proof.
  destruct (supported_kind_never_exits (F := R) params.default
              supported_sigmoid)
    as (_ & _ & _ & _ & Hrun & _).
  exact (Hrun 0%nat 5%nat tiny_mnist).
Defined.

(** * Further properties of the code *)

(** ** Model construction *)

(** X1. [init_model] returns two dicts, the model and the gradients, that
    hold the same four tensors in different cells (a deep copy: no array is
    shared).  W is n_h x n_input, C is n_output x n_h, b1 has n_h entries and
    b2 has n_output; the entries are the samples of [randn], taken in the
    order W, C, b1, b2, divided by the square root of n_input, n_h, n_h and
    n_output; exactly n_h*n_input + n_output*n_h + n_h + n_output samples
    are used, and no cell of the state before the call is changed. *)
Theorem init_model_two_bundles `{Float F} (d : mnist.t F) (p : params.t F)
    (w : world F) :
  (0 ≤ params.n_h p)%Z → (0 ≤ mnist.n_input d)%Z → (0 ≤ mnist.n_output d)%Z →
  let D := Z.to_nat (mnist.n_input d) in
  let Hn := Z.to_nat (params.n_h p) in
  let K := Z.to_nat (mnist.n_output d) in
  let B := init_bundle (gauss w) (gdraws w) (mnist.n_input d) (params.n_h p)
             (mnist.n_output d) in
  returns (init_model d p) w
    (λ r w', holds (heap w') r.1 D Hn B ∧ holds (heap w') r.2 D Hn B ∧
       shaped D Hn K B ∧ r.1 ≠ r.2 ∧
       (∀ g g' k l l', heap w' !! r.1 = Some (Dict g) →
          heap w' !! r.2 = Some (Dict g') →
          g !! k = Some l → g' !! k = Some l' → l ≠ l') ∧
       (∀ l o, heap w !! l = Some o → heap w' !! l = Some o) ∧
       gdraws w' = (gdraws w + (Hn * D + K * Hn + Hn + K))%nat ∧
       draws w' = draws w ∧ out w' = out w).
Proof.
  intros Hh Hi Ho D Hn K B.
  eapply returns_mono; [by apply init_model_spec|].
  intros r w' (HB & HB' & _ & _ & Hne & Hsep & KK & S).
  split; [done|]. split; [done|]. split; [apply shaped_init_bundle|].
  split; [done|]. split; [done|].
  split; [intros l o Hl; by apply KK|].
  destruct S as (_ & Sd & _ & Sg & So). done.
Qed.

Lemma init_model_two_bundles_witness :
  returns (init_model tiny_mnist relu_params) tiny_world
    (λ r w',
       holds (heap w') r.1 1 1 (init_bundle (λ _, 0) 0 1 1 1) ∧
       holds (heap w') r.2 1 1 (init_bundle (λ _, 0) 0 1 1 1) ∧
       shaped 1 1 1 (init_bundle (λ _, 0) 0 1 1 1) ∧ r.1 ≠ r.2 ∧
       (∀ g g' k l l', heap w' !! r.1 = Some (Dict g) →
          heap w' !! r.2 = Some (Dict g') →
          g !! k = Some l → g' !! k = Some l' → l ≠ l') ∧
       (∀ l o, heap tiny_world !! l = Some o → heap w' !! l = Some o) ∧
       gdraws w' = (0 + (1 * 1 + 1 * 1 + 1 + 1))%nat ∧
       draws w' = 0%nat ∧ out w' = []).
Proof.
  refine (init_model_two_bundles tiny_mnist relu_params tiny_world _ _ _);
    simpl; lia.
Defined.

(** X2. A negative size makes [init_model] fail with ValueError: [randn]
    rejects a negative dimension before any division by [sqrt]. *)
Theorem init_model_negative_size `{Float F} (d : mnist.t F) (p : params.t F)
    (w : world F) :
  (params.n_h p < 0 ∨ mnist.n_input d < 0 ∨ mnist.n_output d < 0)%Z →
  init_model d p w = Raise ValueError.
Proof.
  intros Hneg. unfold init_model.
  eapply raises_bind; [apply alloc_spec|].
  intros m w1 (X1 & Fm & Lm). cbv beta.
  destruct (decide (params.n_h p < 0 ∨ mnist.n_input d < 0)%Z) as [H1|H1].
  - apply raises_bind_l. unfold np_randn2. by rewrite decide_True.
  - assert (Ho : (mnist.n_output d < 0)%Z) by lia.
    eapply raises_bind; [apply np_randn2_spec; lia|].
    intros r1 w2 (_ & K2 & S2 & L2). cbv beta. bringk K2.
    eapply raises_bind; [by eapply np_map_spec2|].
    intros lW w3 (X3 & _ & LW). cbv beta. bring X3.
    eapply raises_bind; [by eapply setitem_spec|].
    intros _ w4 _. cbv beta.
    apply raises_bind_l. unfold np_randn2. rewrite decide_True by lia. done.
Qed.

Lemma init_model_negative_size_witness :
  init_model tiny_mnist
    negative_size_params
    tiny_world = Raise ValueError.
Proof.
  apply init_model_negative_size. left. reflexivity.
Defined.

(** ** Labels and shapes *)

Lemma py_index_out n (i : Z) :
  (i < - Z.of_nat n ∨ Z.of_nat n ≤ i)%Z → py_index n i = None.
Proof. intros Hi. unfold py_index. by rewrite !decide_False by lia. Qed.

Lemma py_index_neg n (i : Z) :
  (- Z.of_nat n ≤ i < 0)%Z → py_index n i = Some (Z.to_nat (i + Z.of_nat n)).
Proof.
  intros Hi. unfold py_index. rewrite decide_False by lia.
  by rewrite decide_True.
Qed.

(** X3. A label outside [-K, K) makes [backprop] fail with IndexError, at
    [dU[y]], before the gradient dict is written. *)
Theorem backprop_label_out_of_range `{Kernels F} x y f pv Z_ Hl m mg func
    (w : world F) :
  heap w !! f = Some (Arr1 pv) →
  (y < - Z.of_nat (length pv) ∨ Z.of_nat (length pv) ≤ y)%Z →
  backprop x y f Z_ Hl m mg func w = Raise IndexError.
Proof.
  intros Hf Hy. unfold backprop.
  eapply raises_bind; [by eapply np_map_spec|].
  intros dU w1 (X1 & F1 & L1). cbv beta.
  apply raises_bind_l. unfold arr_getitem, bind.
  rewrite (deref_spec _ _ _ L1). unfold lift, seq_getitem.
  rewrite py_index_out; [done|]. by rewrite length_map.
Qed.

Lemma backprop_label_out_of_range_witness :
  backprop 6 1 7 8 9 0 5 "tanh" tiny_world = Raise IndexError.
Proof.
  apply (backprop_label_out_of_range 6 1 7 [1]).
  - reflexivity.
  - right. simpl. lia.
Defined.

(** X4. A negative label [-K <= y < 0] is accepted: numpy counts it from the
    end, and [backprop] returns the gradients of the class [y + K]. *)
Theorem backprop_negative_label `{Kernels F} x xv y f pv Z_ zv Hl hv m g lC
    Hn Cm mg gg func (w : world F) :
  heap w !! x = Some (Arr1 xv) → heap w !! f = Some (Arr1 pv) →
  heap w !! Z_ = Some (Arr1 zv) → heap w !! Hl = Some (Arr1 hv) →
  heap w !! m = Some (Dict g) → g !! "C" = Some lC →
  heap w !! lC = Some (Arr2 Hn Cm) →
  length Cm = length pv → length zv = Hn →
  heap w !! mg = Some (Dict gg) →
  (- Z.of_nat (length pv) ≤ y < 0)%Z → supported func →
  returns (backprop x y f Z_ Hl m mg func) w
    (λ r w', r = mg ∧
       holds (heap w') mg (length xv) (length hv)
         (gradients func Hn Cm (Z.to_nat (y + Z.of_nat (length pv)))
            pv zv hv xv)).
Proof.
  intros Hx Hf HZ HH Hm HC LC SC Sz Hmg Hy Hfunc.
  eapply returns_mono.
  - eapply (backprop_spec x xv y (Z.to_nat (y + Z.of_nat (length pv))));
      try eassumption.
    + by apply py_index_neg.
    + lia.
  - intros r w' (-> & _ & _ & lW & lC' & lb1 & lb2 & _ & _ & _ & _ &
                 Ld & LW & LC' & Lb1 & Lb2).
    split; [done|]. eexists _, lW, lC', lb1, lb2.
    split; [exact Ld|]. repeat split; try done; by simplify_map_eq.
Qed.

Lemma backprop_negative_label_witness :
  returns (backprop 6 (-1) 7 8 9 0 5 "tanh") tiny_world
    (λ r w', r = 5%nat ∧
       holds (heap w') 5 1 1
         (gradients "tanh" 1 [[0]] (Z.to_nat (-1 + Z.of_nat 1)) [1] [0] [0]
            [0])).
Proof.
  refine (backprop_negative_label 6 [0] (-1) 7 [1] 8 [0] 9 [0] 0 tiny_dict 2 1
            [[0]] 5 ∅ "tanh" tiny_world eq_refl eq_refl eq_refl eq_refl
            eq_refl eq_refl eq_refl eq_refl eq_refl eq_refl _ _).
  - simpl. lia.
  - by left.
Defined.

(** X5. A feature vector whose length is not the number of columns of W
    makes [forward] fail with ValueError, at [np.dot], whatever the
    activation kind. *)
Theorem forward_wrong_input_length `{Kernels F} x xv m D Hn B func
    (w : world F) :
  holds (heap w) m D Hn B → heap w !! x = Some (Arr1 xv) → length xv ≠ D →
  forward x m func w = Raise ValueError.
Proof.
  intros (g & lW & lC & lb1 & lb2 & Hm & HW & HC & Hb1 & Hb2 &
          LW & LC & Lb1 & Lb2) Hx Hl.
  unfold forward.
  eapply raises_bind; [eapply getitem_spec; [lk|done]|].
  intros ? ? [-> ->]. cbv beta.
  apply raises_bind_l. unfold np_dot, bind.
  rewrite (deref_spec _ _ _ LW), (deref_spec _ _ _ Hx).
  rewrite decide_False by (intros ->; by apply Hl). done.
Qed.

Lemma forward_wrong_input_length_witness :
  forward 10 0 "tanh" tiny_world = Raise ValueError.
Proof.
  apply (forward_wrong_input_length 10 [] 0 1 1 tiny_bundle).
  - apply holds_tiny.
  - reflexivity.
  - discriminate.
Defined.

(** ** Edge cases of the loops *)

Lemma py_range_nonpos n : (n ≤ 0)%Z → py_range n = [].
Proof. intros Hn. unfold py_range. by replace (Z.to_nat n) with 0%nat by lia. Qed.

(** X6. With no epoch to run ([n_epochs <= 0]) [nn_train] returns the model
    dict at once: the state is untouched, no sample is drawn and nothing is
    printed, whatever the data and the activation kind. *)
Theorem nn_train_no_epochs `{Kernels F} m mg (p : params.t F) (d : mnist.t F)
    (w : world F) :
  (params.n_epochs p ≤ 0)%Z → nn_train m mg p d w = Ok (m, w).
Proof.
  intros Hn. unfold nn_train. by rewrite py_range_nonpos.
Qed.

Lemma nn_train_no_epochs_witness :
  nn_train 0 5
    no_epoch_params
    tiny_mnist tiny_world
  = Ok (0%nat, tiny_world).
Proof.
  apply nn_train_no_epochs. simpl. lia.
Defined.

(** X7. An empty training set ([n_train = 0]) with at least one epoch makes
    [nn_train] fail with ZeroDivisionError: the first epoch makes no
    sample-step and then divides by [float(n_train)] for its report. *)
Theorem nn_train_empty_training_set `{Kernels F} m mg (p : params.t F)
    (d : mnist.t F) (w : world F) :
  mnist.n_train d = 0%Z → (0 < params.n_epochs p)%Z →
  nn_train m mg p d w = Raise ZeroDivisionError.
Proof.
  intros HN HE. unfold nn_train.
  apply raises_bind_l. rewrite py_range_pos by done. simpl for_loop.
  apply raises_bind_l. unfold train_epoch. cbn [fst snd].
  eapply (raises_bind _ _ _ _ (λ _ w', w' = w)).
  { unfold lr_schedule. rewrite decide_False by lia. by apply returns_ret. }
  intros LR ? ->. cbv beta. rewrite HN.
  change (py_range 0) with (@nil Z). simpl for_loop.
  unfold bind, ret, py_div_float. by rewrite decide_True.
Qed.

Lemma nn_train_empty_training_set_witness :
  nn_train 0 5 params.default
    empty_mnist
    tiny_world
  = Raise ZeroDivisionError.
Proof.
  apply nn_train_empty_training_set; reflexivity.
Defined.

(** X8. An empty test set ([n_test = 0]) makes [nn_test] fail with
    ZeroDivisionError, at the division for the accuracy. *)
Theorem nn_test_empty_test_set `{Kernels F} m (p : params.t F) (d : mnist.t F)
    (w : world F) :
  mnist.n_test d = 0%Z → nn_test m p d w = Raise ZeroDivisionError.
Proof.
  intros HN. unfold nn_test. rewrite HN.
  change (py_range 0) with (@nil Z). simpl for_loop.
  unfold bind, ret, py_div_float. by rewrite decide_True.
Qed.

Lemma nn_test_empty_test_set_witness :
  nn_test 0 params.default
    empty_mnist
    tiny_world
  = Raise ZeroDivisionError.
Proof.
  apply nn_test_empty_test_set. reflexivity.
Defined.

(** X9. Samples that do not have 784 = 28 x 28 entries cannot be evaluated:
    the first test sample is drawn by [plot_predict], whose [reshape(28,28)]
    fails, so [nn_test] ends with ValueError. *)
Theorem nn_test_needs_28x28 `{Kernels F} m D Hn K B (p : params.t F)
    (d : mnist.t F) (w : world F) :
  holds (heap w) m D Hn B → shaped D Hn K B → (0 < K)%nat →
  test_set_ok D d → (0 < mnist.n_test d)%Z → supported (params.sigma p) →
  D ≠ 784%nat →
  nn_test m p d w = Raise ValueError.
Proof.
  intros HB Sh HK (Tn & Ty & Tx) HN Hf HD. unfold nn_test.
  apply raises_bind_l. rewrite py_range_pos by done. simpl for_loop.
  apply raises_bind_l. unfold test_sample. cbn [fst snd].
  assert (Hi : (0 < length (mnist.x_test d))%nat) by lia.
  destruct (lookup_lt_is_Some_2 (mnist.x_test d) 0 Hi) as [xv Hxv].
  destruct (lookup_lt_is_Some_2 (mnist.y_test d) 0) as [y Hy]; [lia|].
  pose proof (Forall_lookup_1 _ _ _ _ Tx Hxv) as Lx. cbv beta in Lx.
  eapply (raises_bind _ _ _ _ (λ a w', a = y ∧ w' = w)).
  { eapply returns_lift; [by apply (seq_getitem_nat _ 0)|done]. }
  intros ? ? [-> ->]. cbv beta.
  eapply (raises_bind _ _ _ _ (λ a w', a = xv ∧ w' = w)).
  { eapply returns_lift; [by apply (seq_getitem_nat _ 0)|done]. }
  intros ? ? [-> ->]. cbv beta.
  eapply raises_bind; [apply alloc_spec|].
  intros x w2 (X2 & F2 & L2). cbv beta.
  apply (holds_ext _ _ _ _ _ _ X2) in HB.
  eapply raises_bind; [by eapply forward_spec|].
  intros [[Z_ Hc] f] w3 (X3 & _ & _ & _ & LZ & LH & Lf). cbn [fst snd] in *.
  bring X3.
  pose proof (length_fwd_p _ _ _ _ (params.sigma p) xv Sh) as Lp.
  destruct (argmax_ok (fwd_p (params.sigma p) B xv)) as [pred Hpred].
  { intros E. rewrite E in Lp. simpl in Lp. lia. }
  eapply raises_bind; [by eapply np_argmax_spec|].
  intros ? ? [-> ->]. cbv beta.
  assert (Hplot : plot_predict x y pred w3 = Raise ValueError).
  { unfold plot_predict, bind. rewrite (deref_spec _ _ _ L2).
    rewrite decide_False by lia. done. }
  destruct (decide (pred = y)) as [Hcr|Hcr].
  - apply raises_bind_l. rewrite decide_True by lia.
    by apply raises_bind_l.
  - unfold bind at 1. unfold ret at 1. cbn [fst snd].
    apply raises_bind_l. rewrite decide_True by (split; [done|lia]).
    by apply raises_bind_l.
Qed.

Lemma nn_test_needs_28x28_witness :
  nn_test 0 params.default tiny_mnist tiny_world = Raise ValueError.
Proof.
  apply (nn_test_needs_28x28 0 1 1 1 tiny_bundle).
  - apply holds_tiny.
  - apply shaped_tiny.
  - lia.
  - by repeat split; repeat constructor.
  - reflexivity.
  - apply supported_sigmoid.
  - discriminate.
Defined.

(** ** The decay interval *)

(** the first epoch does not look at the interval *)
Lemma train_epoch_first_spec `{Kernels F} m mg D Hn K (p : params.t F)
    (d : mnist.t F) LR B gg (w : world F) :
  (0 < K)%nat → m ≠ mg → train_set_ok D K d → (0 < mnist.n_train d)%Z →
  supported (params.sigma p) →
  holds (heap w) m D Hn B → shaped D Hn K B →
  heap w !! mg = Some (Dict gg) →
  let N1 := Z.to_nat (mnist.n_train d) in
  let B' := sgd_steps (params.sigma p) Hn LR d (rand w) (draws w) N1 B in
  returns (train_epoch m p d 0 (LR, mg)) w
    (λ r w', r = (LR, mg) ∧ holds (heap w') m D Hn B' ∧ shaped D Hn K B' ∧
       (∃ gg', heap w' !! mg = Some (Dict gg')) ∧
       ∃ acc, advanced N1 [EpochReport 0 acc] w w').
Proof.
  intros HK Hne HT HN Hf HB Sh Hmg N1 B'.
  unfold train_epoch. cbn [fst snd].
  apply returns_bind. unfold lr_schedule. rewrite decide_False by lia.
  apply returns_ret.
  step train_samples_spec; [done|done|done|done|done|done|done|done|].
  rewrite length_py_range. fold N1. fold B'.
  intros [tc mg'] w1 (E & HB1 & S1 & Hmg1 & K1 & A1). simpl in E. subst mg'.
  cbn [fst snd]. unfold py_div_float. rewrite decide_False by lia.
  apply returns_bind, returns_ret. apply returns_bind.
  unfold returns, emit. eexists tt, _. split; [done|].
  apply returns_ret. split; [done|]. split; [done|]. split; [done|].
  split; [done|].
  eexists. destruct A1 as (?&?&?&?&A1). unfold advanced; simpl.
  rewrite A1, app_nil_r. done.
Qed.

(** X10. A decay interval of 0 is not rejected when the program starts: the
    first epoch runs in full and prints its report, and the second epoch
    fails with ZeroDivisionError at [epochs % interval]. *)
Theorem nn_train_zero_interval `{Kernels F} m mg gg D Hn K B (p : params.t F)
    (d : mnist.t F) (w : world F) :
  holds (heap w) m D Hn B → shaped D Hn K B → (0 < K)%nat →
  heap w !! mg = Some (Dict gg) → m ≠ mg →
  train_set_ok D K d → (0 < mnist.n_train d)%Z →
  supported (params.sigma p) →
  params.interval p = 0%Z → (2 ≤ params.n_epochs p)%Z →
  nn_train m mg p d w = Raise ZeroDivisionError ∧
  returns (train_epoch m p d 0 (params.lr p, mg)) w
    (λ r w', r.1 = params.lr p ∧
       draws w' = (draws w + Z.to_nat (mnist.n_train d))%nat ∧
       ∃ acc, out w' = out w ++ [EpochReport 0 acc]).
Proof.
  intros HB Sh HK Hmg Hne HT HN Hf Hi HE. split.
  - unfold nn_train. apply raises_bind_l.
    rewrite py_range_pos by lia.
    replace (Z.to_nat (params.n_epochs p) - 1)%nat
      with (S (Z.to_nat (params.n_epochs p) - 2)) by lia.
    simpl for_loop.
    eapply raises_bind; [by eapply train_epoch_first_spec|].
    intros r w1 (-> & _). cbv beta.
    apply raises_bind_l. unfold train_epoch. cbn [fst snd].
    apply raises_bind_l. unfold lr_schedule.
    rewrite decide_True by lia. by rewrite decide_True.
  - eapply returns_mono; [by eapply train_epoch_first_spec|].
    intros r w1 (-> & _ & _ & _ & acc & A). split; [done|].
    destruct A as (_ & Ad & _ & _ & Ao). split; [done|]. by exists acc.
Qed.

Lemma nn_train_zero_interval_witness :
  nn_train 0 5 zero_interval_params tiny_mnist tiny_world
  = Raise ZeroDivisionError.
Proof.
  refine (proj1 (nn_train_zero_interval 0 5 ∅ 1 1 1 tiny_bundle
                   zero_interval_params tiny_mnist tiny_world
                   _ _ _ eq_refl _ _ eq_refl _ eq_refl _)).
  - apply holds_tiny.
  - apply shaped_tiny.
  - lia.
  - discriminate.
  - apply train_set_tiny.
  - apply supported_tanh.
  - simpl. lia.
Defined.

(** X11. A negative interval acts as its absolute value: the head of an
    epoch computes the same rate for [interval] and for [- interval]
    (Python's [%] is 0 for the same epochs). *)
Theorem lr_schedule_negative_interval `{Float F} (p p' : params.t F) epochs LR
    (w : world F) :
  params.interval p' = (- params.interval p)%Z →
  params.decay p' = params.decay p →
  lr_schedule p' epochs LR w = lr_schedule p epochs LR w.
Proof.
  intros Hi Hd. unfold lr_schedule. rewrite Hi, Hd.
  destruct (decide (0 < epochs)%Z); [|done].
  destruct (decide (params.interval p = 0)%Z) as [H0|H0].
  - rewrite decide_True by lia. done.
  - rewrite decide_False by lia.
    destruct (decide (epochs `mod` params.interval p = 0)%Z) as [Hm|Hm].
    + rewrite decide_True; [done|].
      rewrite Z.mod_opp_r_z by done. lia.
    + rewrite decide_False; [done|].
      intros Hm'. apply Hm.
      rewrite <- (Z.opp_involutive (params.interval p)).
      rewrite Z.mod_opp_r_z; [lia|lia|done].
Qed.

Lemma lr_schedule_negative_interval_witness :
  lr_schedule negative_interval_params 5 (lit 0.1) tiny_world
  = lr_schedule params.default 5 (lit 0.1) tiny_world.
Proof.
  apply lr_schedule_negative_interval; reflexivity.
Defined.

(** ** Shapes *)

(** X13. The outputs of the forward pass have the shapes of the
    specification: Z and H have one entry per hidden unit and f has one
    entry per class, whatever the values. *)
Theorem forward_output_shapes `{Kernels F} x xv m D Hn K B func (w : world F) :
  holds (heap w) m D Hn B → shaped D Hn K B →
  heap w !! x = Some (Arr1 xv) → length xv = D → supported func →
  returns (forward x m func) w
    (λ r w', ∃ z h p,
       heap w' !! r.1.1 = Some (Arr1 z) ∧ heap w' !! r.1.2 = Some (Arr1 h) ∧
       heap w' !! r.2 = Some (Arr1 p) ∧
       length z = Hn ∧ length h = Hn ∧ length p = K).
Proof.
  intros HB Sh Hx Hl Hf.
  eapply returns_mono; [by eapply forward_spec|].
  intros r w' (_ & _ & _ & _ & Lz & Lh & Lp).
  exists (fwd_z B xv), (fwd_h func B xv), (fwd_p func B xv).
  split; [done|]. split; [done|]. split; [done|].
  split; [by eapply length_fwd_z|].
  split; [by eapply length_fwd_h|by eapply length_fwd_p].
Qed.

Lemma forward_output_shapes_witness :
  returns (forward 6 0 "tanh") tiny_world
    (λ r w', ∃ z h p,
       heap w' !! r.1.1 = Some (Arr1 z) ∧ heap w' !! r.1.2 = Some (Arr1 h) ∧
       heap w' !! r.2 = Some (Arr1 p) ∧
       length z = 1%nat ∧ length h = 1%nat ∧ length p = 1%nat).
Proof.
  apply (forward_output_shapes 6 [0] 0 1 1 1 tiny_bundle "tanh" tiny_world).
  - apply holds_tiny.
  - apply shaped_tiny.
  - reflexivity.
  - reflexivity.
  - apply supported_tanh.
Defined.

(** X14. Training keeps the shapes of the four tensors: after [nn_train]
    the model dict holds a bundle with W of n_h x n_input, C of
    n_output x n_h, b1 of n_h and b2 of n_output entries, as before. *)
Theorem nn_train_keeps_shapes `{Kernels F} m mg gg D Hn K B (p : params.t F)
    (d : mnist.t F) (w : world F) :
  holds (heap w) m D Hn B → shaped D Hn K B → (0 < K)%nat →
  heap w !! mg = Some (Dict gg) → m ≠ mg →
  train_set_ok D K d → (0 < mnist.n_train d)%Z →
  supported (params.sigma p) → params.interval p ≠ 0%Z →
  returns (nn_train m mg p d) w
    (λ r w', ∃ B', holds (heap w') r D Hn B' ∧ shaped D Hn K B').
Proof.
  intros HB Sh HK Hmg Hne HT HN Hf Hi.
  eapply returns_mono; [by eapply nn_train_spec|].
  intros r w' (-> & HB' & S' & _). eexists. split; [exact HB'|done].
Qed.

Lemma nn_train_keeps_shapes_witness :
  returns (nn_train 0 5 params.default tiny_mnist) tiny_world
    (λ r w', ∃ B', holds (heap w') r 1 1 B' ∧ shaped 1 1 1 B').
Proof.
  refine (nn_train_keeps_shapes 0 5 ∅ 1 1 1 tiny_bundle
            params.default tiny_mnist tiny_world holds_tiny shaped_tiny _
            eq_refl _ train_set_tiny eq_refl supported_sigmoid _).
  - lia.
  - discriminate.
  - discriminate.
Defined.

(** ** Invariants of training *)

(** X15. Training never writes into an array: a sample-step binds the keys
    of the model dict to new arrays.  Every cell other than the two dicts
    keeps its content, so a reference to an initial tensor still sees the
    initial values after [nn_train]. *)
Theorem nn_train_rebinds_tensors `{Kernels F} m mg gg D Hn K B
    (p : params.t F) (d : mnist.t F) (w : world F) :
  holds (heap w) m D Hn B → shaped D Hn K B → (0 < K)%nat →
  heap w !! mg = Some (Dict gg) → m ≠ mg →
  train_set_ok D K d → (0 < mnist.n_train d)%Z →
  supported (params.sigma p) → params.interval p ≠ 0%Z →
  returns (nn_train m mg p d) w
    (λ _ w',
       (∀ l o, l ≠ m → l ≠ mg → heap w !! l = Some o → heap w' !! l = Some o) ∧
       (∀ g k l, heap w !! m = Some (Dict g) → g !! k = Some l →
          (k = "W" → heap w' !! l = Some (Arr2 D (tW B))) ∧
          (k = "C" → heap w' !! l = Some (Arr2 Hn (tC B))) ∧
          (k = "b1" → heap w' !! l = Some (Arr1 (tb1 B))) ∧
          (k = "b2" → heap w' !! l = Some (Arr1 (tb2 B))))).
Proof.
  intros HB Sh HK Hmg Hne HT HN Hf Hi.
  pose proof HB as (g & lW & lC & lb1 & lb2 & Hm & HgW & HgC & Hgb1 & Hgb2 &
                    LW & LC & Lb1 & Lb2).
  eapply returns_mono; [by eapply nn_train_spec|].
  intros r w' (-> & _ & _ & KK & _).
  assert (Harr : ∀ l o, heap w !! l = Some o → (∀ d, o ≠ Dict d) →
                        heap w' !! l = Some o).
  { intros l o Hlo Ho. apply KK; [|done]. split; intros ->.
    - rewrite Hm in Hlo. injection Hlo as <-. by eapply Ho.
    - rewrite Hmg in Hlo. injection Hlo as <-. by eapply Ho. }
  split; [intros l o H1 H2 Hlo; by apply KK|].
  intros g0 k l Hg0 Hk. rewrite Hm in Hg0. injection Hg0 as <-.
  repeat split; intros ->; simplify_eq; by apply Harr.
Qed.

Lemma nn_train_rebinds_tensors_witness :
  returns (nn_train 0 5 params.default tiny_mnist) tiny_world
    (λ _ w',
       (∀ l o, l ≠ 0%nat → l ≠ 5%nat → heap tiny_world !! l = Some o →
               heap w' !! l = Some o) ∧
       (∀ g k l, heap tiny_world !! 0%nat = Some (Dict g) → g !! k = Some l →
          (k = "W" → heap w' !! l = Some (Arr2 1 (tW tiny_bundle))) ∧
          (k = "C" → heap w' !! l = Some (Arr2 1 (tC tiny_bundle))) ∧
          (k = "b1" → heap w' !! l = Some (Arr1 (tb1 tiny_bundle))) ∧
          (k = "b2" → heap w' !! l = Some (Arr1 (tb2 tiny_bundle))))).
Proof.
  refine (nn_train_rebinds_tensors 0 5 ∅ 1 1 1 tiny_bundle params.default
            tiny_mnist tiny_world holds_tiny shaped_tiny _ eq_refl _
            train_set_tiny eq_refl supported_sigmoid _).
  - lia.
  - discriminate.
  - discriminate.
Defined.

(** ** The arg-max *)

(** X16. The class predicted by [np.argmax] is an index of the array.  On
    numbers its entry is maximal, and every entry before it is strictly
    smaller: among equal maxima the lowest class is predicted.  When the
    array holds a [nan], the first [nan] is taken.  The state is not
    changed. *)
Theorem np_argmax_first_maximum `{Float F} `{!FloatOrder F} a v (w : world F) :
  heap w !! a = Some (Arr1 v) → v ≠ [] →
  returns (np_argmax a) w
    (λ r w', w' = w ∧ (0 ≤ r < Z.of_nat (length v))%Z ∧
       ∃ b, v !! Z.to_nat r = Some b ∧
            (∀ j c, (j < Z.to_nat r)%nat → v !! j = Some c →
               isnan c = false) ∧
            (isnan b = false →
             ∀ j c, v !! j = Some c →
               fle c b = true ∧ ((j < Z.to_nat r)%nat → fle b c = false))).
Proof.
  intros Ha Hv. destruct v as [|a0 t]; [done|].
  eapply returns_mono; [by eapply np_argmax_spec|].
  intros r w' [-> ->]. split; [done|]. rewrite Nat2Z.id.
  destruct (isnan a0) eqn:Hna.
  - split; [simpl; lia|]. exists a0. split; [done|]. split; [intros; lia|].
    intros Hn. congruence.
  - destruct (argmax_from_spec t [a0] a0 0%nat 1%nat) as (b & Hb & Hnan & Hmax);
      [done|done|done| |].
    { intros j c Hj. apply list_lookup_singleton_Some in Hj as [-> ->].
      split; [by apply fle_refl|lia]. }
    simpl app in *.
    pose proof (lookup_lt_Some _ _ _ Hb) as Hlt.
    split; [lia|]. by exists b.
Qed.

Lemma np_argmax_first_maximum_witness :
  returns (np_argmax 7) tiny_world
    (λ r w', w' = tiny_world ∧ (0 ≤ r < Z.of_nat (length [1]))%Z ∧
       ∃ b, [1] !! Z.to_nat r = Some b ∧
            (∀ j c, (j < Z.to_nat r)%nat → [1] !! j = Some c →
               isnan c = false) ∧
            (isnan b = false →
             ∀ j c, [1] !! j = Some c →
               fle c b = true ∧ ((j < Z.to_nat r)%nat → fle b c = false))).
Proof.
  apply (np_argmax_first_maximum 7 [1] tiny_world).
  - reflexivity.
  - discriminate.
Defined.

(** ** The reported accuracy *)

(** X18. The accuracy that [nn_test] prints is a fraction: it lies between
    0 and 1, being the number of correctly classified test samples over
    [n_test]. *)
Theorem nn_test_accuracy_is_fraction `{Kernels F} m Hn K B (p : params.t F)
    (d : mnist.t F) (w : world F) :
  holds (heap w) m 784 Hn B → shaped 784 Hn K B → (0 < K)%nat →
  test_set_ok 784 d → (0 < mnist.n_test d)%Z →
  supported (params.sigma p) →
  returns (nn_test m p d) w
    (λ _ w', ∃ plots acc,
       out w' = out w ++ plots ++ [TestReport acc] ∧ 0 <= acc <= 1).
Proof.
  intros HB Sh HK HT HN Hf.
  eapply returns_mono; [by eapply nn_test_spec|].
  intros _ w' (_ & A). destruct A as (_ & _ & _ & _ & Ao).
  eexists _, _. split; [exact Ao|].
  set (evs := outcomes (params.sigma p) B d).
  assert (Hle : (length (filter correct evs) ≤ Z.to_nat (mnist.n_test d))%nat).
  { etrans; [apply length_filter|].
    unfold evs, outcomes. by rewrite length_map, length_seq. }
  assert (Hpos : 0 < IZR (mnist.n_test d)) by (by apply IZR_lt).
  assert (Hnum : 0 <= IZR (Z.of_nat (length (filter correct evs))))
    by (apply IZR_le; lia).
  assert (Hden : IZR (Z.of_nat (length (filter correct evs)))
               <= IZR (mnist.n_test d)) by (apply IZR_le; lia).
  split.
  - unfold Rdiv. apply Rmult_le_pos; [done|].
    left. by apply Rinv_0_lt_compat.
  - apply (Rmult_le_reg_r (IZR (mnist.n_test d))); [done|].
    unfold Rdiv. rewrite Rmult_assoc, Rinv_l by lra. lra.
Qed.

Lemma nn_test_accuracy_is_fraction_witness :
  returns (nn_test 0 params.default image_mnist) image_world
    (λ _ w', ∃ plots acc,
       out w' = out image_world ++ plots ++ [TestReport acc] ∧ 0 <= acc <= 1).
Proof.
  refine (nn_test_accuracy_is_fraction 0 1 1 image_bundle params.default
            image_mnist image_world holds_image shaped_image _ test_set_image
            eq_refl supported_sigmoid).
  lia.
Defined.

(** ** Activation and softmax, entry by entry *)

(** X19. [d_sigma] is a function of what [sigma] returns on the same input:
    entry by entry it is [a (1 - a)] for the kind sigmoid and [1 - a*a] for
    tanh, [a] being the entry of [sigma]'s output, bit for bit.  Both calls
    leave the input and each other's output unchanged. *)
Theorem d_sigma_of_sigma_output `{Kernels F} kind z zv (w : world F) :
  supported kind → heap w !! z = Some (Arr1 zv) →
  returns (sigma z kind) w
    (λ l w1, ∃ hv,
       heap w1 !! l = Some (Arr1 hv) ∧ hv = map (activate kind) zv ∧
       returns (d_sigma z kind) w1
         (λ l' w2,
            heap w2 !! l' =
              Some (Arr1 (map (λ a, if decide (kind = "tanh")
                                    then fsub (lit 1) (fmul a a)
                                    else fmul a (fsub (lit 1) a)) hv)) ∧
            heap w2 !! l = Some (Arr1 hv) ∧
            heap w2 !! z = Some (Arr1 zv))).
Proof.
  intros Hk Hz.
  eapply returns_mono; [by apply sigma_spec|].
  intros l w1 (X1 & F1 & L1). eexists. split; [exact L1|]. split; [done|].
  eapply returns_mono; [apply d_sigma_spec; [lk|done]|].
  intros l' w2 (X2 & F2 & L2). split; [|split; lk].
  rewrite L2. do 2 f_equal. rewrite map_map. apply map_ext. intros a.
  unfold activate_derivative, activate.
  destruct Hk as [-> | ->]; [by rewrite !decide_True|].
  by rewrite !decide_False by discriminate.
Qed.

Lemma d_sigma_of_sigma_output_witness :
  returns (sigma 6 "sigmoid") tiny_world
    (λ l w1, ∃ hv,
       heap w1 !! l = Some (Arr1 hv) ∧ hv = map (activate "sigmoid") [0] ∧
       returns (d_sigma 6 "sigmoid") w1
         (λ l' w2,
            heap w2 !! l' =
              Some (Arr1 (map (λ a, if decide ("sigmoid" = "tanh")
                                    then fsub (lit 1) (fmul a a)
                                    else fmul a (fsub (lit 1) a)) hv)) ∧
            heap w2 !! l = Some (Arr1 hv) ∧
            heap w2 !! 6%nat = Some (Arr1 [0]))).
Proof.
  apply (d_sigma_of_sigma_output "sigmoid" 6 [0] tiny_world).
  - apply supported_sigmoid.
  - reflexivity.
Defined.

(** X20. [softmax_function] returns a new array of the length of its input
    whose entry [i] is [exp(u_i) / np.sum(exp(u))]; the input is unchanged.
    On the empty array it returns the empty array. *)
Theorem softmax_function_entries `{Kernels F} z zv (w : world F) :
  heap w !! z = Some (Arr1 zv) →
  returns (softmax_function z) w
    (λ l w', ∃ p,
       heap w' !! l = Some (Arr1 p) ∧ length p = length zv ∧
       (∀ i a, zv !! i = Some a →
          p !! i = Some (fdiv (fexp a) (fsum (map fexp zv)))) ∧
       (zv = [] → p = []) ∧
       l ≠ z ∧ heap w' !! z = Some (Arr1 zv)).
Proof.
  intros Hz.
  eapply returns_mono; [by apply softmax_function_spec|].
  intros l w' (X & Fr & L). exists (softmax zv).
  split; [done|]. split; [apply length_softmax|]. split; [|split; [|split]].
  - intros i a Hi. unfold softmax. by rewrite list_lookup_fmap, Hi.
  - by intros ->.
  - intros ->. unfold fresh in Fr. congruence.
  - lk.
Qed.

Lemma softmax_function_entries_witness :
  returns (softmax_function 7) tiny_world
    (λ l w', ∃ p,
       heap w' !! l = Some (Arr1 p) ∧ length p = length [1] ∧
       (∀ i a, [1] !! i = Some a →
          p !! i = Some (fdiv (fexp a) (fsum (map fexp [1])))) ∧
       ([1] = [] → p = []) ∧
       l ≠ 7%nat ∧ heap w' !! 7%nat = Some (Arr1 [1])).
Proof.
  apply (softmax_function_entries 7 [1] tiny_world). reflexivity.
Defined.
